(** * statelint: the expression resolution engine

    A shallow embedding of [src/resolver/types.ts],
    [src/resolver/expression-resolver.ts], [src/resolver/symbol-table.ts]
    and [src/resolver/import-resolver.ts], with the properties of the
    resolution engine stated and proved over it. *)

From Stdlib Require Import String Ascii List Bool Arith Lia.
Import ListNotations.
Set Warnings "-register-all".
Local Open Scope string_scope.
Local Open Scope list_scope.

(** String concatenation ([+] on JavaScript strings); [++] is kept for lists. *)
Infix "+++" := String.append (right associativity, at level 60).

(** ** JavaScript [Map<string, V>]

    A JavaScript [Map] iterates in insertion order, and [set] on a key
    that is already present keeps the key's position.  The resolver joins
    the strings it finds while iterating, so the order is observable and
    the map is modelled as an association list with unique keys. *)

Module JsMap.

Fixpoint get {V : Type} (k : string) (m : list (string * V)) : option V :=
  match m with
  | [] => None
  | (k', v) :: m' => if String.eqb k k' then Some v else get k m'
  end.

Fixpoint set {V : Type} (k : string) (v : V) (m : list (string * V))
  : list (string * V) :=
  match m with
  | [] => [(k, v)]
  | (k', v') :: m' =>
      if String.eqb k k' then (k', v) :: m' else (k', v') :: set k v m'
  end.

Definition has {V : Type} (k : string) (m : list (string * V)) : bool :=
  match get k m with Some _ => true | None => false end.

Definition keys {V : Type} (m : list (string * V)) : list string :=
  map fst m.

End JsMap.

(** ** types.ts *)

(** [ResolvedValue]: the three shapes the builder ever constructs,
    [{type: "string", value}], [{type: "object", properties}] and
    [{type: "unresolved"}]. *)
Inductive ResolvedValue : Type :=
| VString (value : string)
| VObject (properties : list (string * ResolvedValue))
| VUnresolved.

Definition SymbolTable : Type := list (string * ResolvedValue).

Record ResolutionResult : Type := mkResult {
  resolvedValue : string;
  isFullyResolved : bool;
  unresolvedParts : list string
}.

(** [ASTNode]: the Babel node kinds the resolver inspects, each with the
    fields the code reads.  Every other node kind is an [OtherNode] that
    carries its [type] and its child nodes in key order (which is all the
    generic traversal of [buildSymbolTable] looks at).  A template's
    [quasis] are kept as the [value.raw] strings of its elements. *)
Inductive ASTNode : Type :=
| StringLiteral (value : string)
| Identifier (name : string)
| MemberExpression (object property : ASTNode) (computed : bool)
| ConditionalExpression (test consequent alternate : ASTNode)
| TemplateLiteral (quasis : list string) (expressions : list ASTNode)
| CallExpression (callee : ASTNode) (arguments : list ASTNode)
| TSAsExpression (expression : ASTNode)
| TSSatisfiesExpression (expression : ASTNode)
| ObjectExpression (properties : list ASTNode)
| ObjectProperty (key value : ASTNode)
| VariableDeclaration (declarations : list ASTNode)
| VariableDeclarator (id : ASTNode) (init : option ASTNode)
| ExportNamedDeclaration (declaration : option ASTNode)
| ImportDeclaration (specifiers : list ASTNode) (source : string)
| ImportSpecifier (local imported : ASTNode)
| ImportDefaultSpecifier (local : ASTNode)
| ImportNamespaceSpecifier (local : ASTNode)
| OtherNode (type : string) (children : list ASTNode).

(** JavaScript truthiness of a string: only the empty string is falsy. *)
Definition truthy (s : string) : bool := negb (String.eqb s "").
Arguments truthy : simpl never.

(** ** expression-resolver.ts *)

Definition STRING_PASSTHROUGH_METHODS : list string :=
  [ "trim"; "trimStart"; "trimEnd"; "trimLeft"; "trimRight";
    "replace"; "replaceAll"; "normalize"; "toLowerCase"; "toUpperCase" ].

Definition dquote : string := String (Ascii.ascii_of_nat 34) EmptyString.

(** [stringifyExpr]: the rendering used in unresolved fragments.  For a
    static access the code interpolates [property.name], which is
    [undefined] when the property is not an identifier. *)
Fixpoint stringifyExpr (node : ASTNode) : string :=
  match node with
  | Identifier name => name
  | MemberExpression object property computed =>
      let obj := stringifyExpr object in
      let prop :=
        if computed then "[" +++ stringifyExpr property +++ "]"
        else match property with
             | Identifier name => "." +++ name
             | _ => ".undefined"
             end in
      obj +++ prop
  | StringLiteral value => dquote +++ value +++ dquote
  | _ => "<expr>"
  end.

Definition unresolvedAs (expr : ASTNode) : ResolutionResult :=
  mkResult "" false [stringifyExpr expr].

(** [collectAllStrings(value, result)] pushes onto [result]; the model
    returns the extended array. *)
Fixpoint collectAllStrings (value : ResolvedValue) (result : list string)
  : list string :=
  match value with
  | VString s => if truthy s then result ++ [s] else result
  | VObject properties =>
      (fix each (ps : list (string * ResolvedValue)) (res : list string) :=
         match ps with
         | [] => res
         | (_, v) :: ps' => each ps' (collectAllStrings v res)
         end) properties result
  | VUnresolved => result
  end.

(** The loop of [resolveMemberExpression] over [current.properties]. *)
Fixpoint unionAllValues (properties : list (string * ResolvedValue))
  (allValues : list string) : list string :=
  match properties with
  | [] => allValues
  | (_, VString s) :: ps =>
      unionAllValues ps (if truthy s then allValues ++ [s] else allValues)
  | (_, (VObject _) as value) :: ps =>
      unionAllValues ps (collectAllStrings value allValues)
  | (_, VUnresolved) :: ps => unionAllValues ps allValues
  end.

(** [resolveMemberExpressionToValue] is only ever called on member
    expressions; on another node the JavaScript would fail on
    [object.type], a case that cannot arise. *)
Fixpoint resolveMemberExpressionToValue (expr : ASTNode) (symbols : SymbolTable)
  : option ResolvedValue :=
  match expr with
  | MemberExpression object property _ =>
      let current :=
        match object with
        | Identifier name => JsMap.get name symbols
        | MemberExpression _ _ _ => resolveMemberExpressionToValue object symbols
        | _ => None
        end in
      match current with
      | Some (VObject properties) =>
          match property with
          | Identifier name => JsMap.get name properties
          | _ => None
          end
      | _ => None
      end
  | _ => None
  end.

Definition resolveMemberExpression (expr : ASTNode) (symbols : SymbolTable)
  : ResolutionResult :=
  match expr with
  | MemberExpression object property isComputed =>
      let root : option (option ResolvedValue) :=
        match object with
        | Identifier name => Some (JsMap.get name symbols)
        | MemberExpression _ _ _ =>
            match resolveMemberExpressionToValue object symbols with
            | Some nestedResult => Some (Some nestedResult)
            | None => None
            end
        | _ => None
        end in
      match root with
      | None => unresolvedAs expr
      | Some None | Some (Some VUnresolved) => unresolvedAs expr
      | Some (Some (VString _)) => unresolvedAs expr
      | Some (Some (VObject properties)) =>
          if isComputed then
            mkResult (String.concat " " (unionAllValues properties [])) true []
          else
            match property with
            | Identifier propName =>
                match JsMap.get propName properties with
                | Some (VString value) => mkResult value true []
                | Some (VObject _) => unresolvedAs expr
                | _ => unresolvedAs expr
                end
            | _ => unresolvedAs expr
            end
      end
  | _ => unresolvedAs expr
  end.

(** The loop of [resolveTemplateLiteral]: for each index of [quasis] the
    raw text is pushed, then (when there is an expression at that index)
    the expression is resolved and its text pushed whatever the verdict.
    [resolve] stands for the recursive call [resolveExpression(_, symbols)]. *)
Section TemplateLoop.
Variable resolve : ASTNode -> ResolutionResult.

Fixpoint resolveTemplateLoop (expressions : list ASTNode) (quasis : list string)
  (parts unresolved : list string) (allResolved : bool) : ResolutionResult :=
  match expressions with
  | [] =>
      (* no expression left: the remaining quasis are pushed one by one *)
      mkResult (String.concat "" (parts ++ quasis)) allResolved unresolved
  | e :: es =>
      match quasis with
      | [] => mkResult (String.concat "" parts) allResolved unresolved
      | q :: qs =>
          let exprResult := resolve e in
          if isFullyResolved exprResult then
            resolveTemplateLoop es qs
              (parts ++ [q; resolvedValue exprResult]) unresolved allResolved
          else
            resolveTemplateLoop es qs
              (parts ++ [q; resolvedValue exprResult])
              (unresolved ++ unresolvedParts exprResult) false
      end
  end.
End TemplateLoop.

(** The [imports] argument of [resolveExpression] is threaded through the
    recursion but never read, so the model leaves it out. *)
Fixpoint resolveExpression (expr : ASTNode) (symbols : SymbolTable)
  : ResolutionResult :=
  match expr with
  | StringLiteral value => mkResult value true []
  | Identifier name =>
      match JsMap.get name symbols with
      | Some (VString value) => mkResult value true []
      | _ => mkResult "" false [name]
      end
  | MemberExpression _ _ _ => resolveMemberExpression expr symbols
  | ConditionalExpression _ consequent alternate =>
      let consequent := resolveExpression consequent symbols in
      let alternate := resolveExpression alternate symbols in
      let combinedValue :=
        String.concat " "
          (filter truthy [resolvedValue consequent; resolvedValue alternate]) in
      mkResult combinedValue
        (isFullyResolved consequent && isFullyResolved alternate)
        (unresolvedParts consequent ++ unresolvedParts alternate)
  | TemplateLiteral quasis expressions =>
      (* resolveTemplateLiteral *)
      resolveTemplateLoop (fun e => resolveExpression e symbols)
        expressions quasis [] [] true
  | CallExpression callee _ =>
      (* resolveCallExpression *)
      match callee with
      | MemberExpression object property _ =>
          match property with
          | Identifier methodName =>
              if truthy methodName
                 && existsb (String.eqb methodName) STRING_PASSTHROUGH_METHODS
              then resolveExpression object symbols
              else unresolvedAs expr
          | _ => unresolvedAs expr
          end
      | _ => unresolvedAs expr
      end
  | _ => unresolvedAs expr
  end.

(** ** symbol-table.ts *)

Record PendingImport : Type := mkPending {
  localName : string;
  importedName : string;
  sourcePath : string
}.

(** The template loop of [extractValue]: a fully resolved expression
    contributes its text, any other one only clears [allResolved]. *)
Fixpoint extractTemplateLoop (symbols : SymbolTable)
  (expressions : list ASTNode) (quasis : list string)
  (parts : list string) (allResolved : bool) : list string * bool :=
  match expressions with
  | [] => (parts ++ quasis, allResolved)
  | e :: es =>
      match quasis with
      | [] => (parts, allResolved)
      | q :: qs =>
          let exprResult := resolveExpression e symbols in
          if isFullyResolved exprResult then
            extractTemplateLoop symbols es qs
              (parts ++ [q; resolvedValue exprResult]) allResolved
          else
            extractTemplateLoop symbols es qs (parts ++ [q]) false
      end
  end.

(** The property loop of [extractValue] on an object literal; [extract]
    stands for the recursive call of [extractValue]. *)
Section ObjectLoop.
Variable extract : ASTNode -> ResolvedValue.

Fixpoint extractProperties (props : list ASTNode)
  (properties : list (string * ResolvedValue)) : list (string * ResolvedValue) :=
  match props with
  | [] => properties
  | prop :: rest =>
      match prop with
      | ObjectProperty key value =>
          let keyName :=
            match key with
            | Identifier name => Some name
            | StringLiteral value => Some value
            | _ => None
            end in
          match keyName with
          | Some k =>
              if truthy k
              then extractProperties rest (JsMap.set k (extract value) properties)
              else extractProperties rest properties
          | None => extractProperties rest properties
          end
      | _ => extractProperties rest properties
      end
  end.
End ObjectLoop.

(** [extractValue] is a closure over the table under construction; the
    table is passed explicitly. *)
Fixpoint extractValue (init : ASTNode) (symbols : SymbolTable) : ResolvedValue :=
  match init with
  | TSAsExpression expression => extractValue expression symbols
  | TSSatisfiesExpression expression => extractValue expression symbols
  | StringLiteral value => VString value
  | TemplateLiteral quasis expressions =>
      match expressions with
      | [] => VString (String.concat "" quasis)
      | _ :: _ =>
          let (parts, allResolved) :=
            extractTemplateLoop symbols expressions quasis [] true in
          if allResolved then VString (String.concat "" parts) else VUnresolved
      end
  | ObjectExpression props =>
      VObject (extractProperties (fun value => extractValue value symbols) props [])
  | _ => VUnresolved
  end.

(** [node.name] of a node that is meant to be an identifier. *)
Definition nameOf (node : ASTNode) : option string :=
  match node with
  | Identifier name => Some name
  | _ => None
  end.

(** The loop of [visit] over the specifiers of an import declaration. *)
Fixpoint trackImports (sourcePath : string) (specifiers : list ASTNode)
  (pendingImports : list PendingImport) : list PendingImport :=
  match specifiers with
  | [] => pendingImports
  | spec :: rest =>
      let push (local : ASTNode) (imported : string -> string) :=
        match nameOf local with
        | Some localName =>
            if truthy localName
            then trackImports sourcePath rest
                   (pendingImports
                    ++ [mkPending localName (imported localName) sourcePath])
            else trackImports sourcePath rest pendingImports
        | None => trackImports sourcePath rest pendingImports
        end in
      match spec with
      | ImportSpecifier local imported =>
          push local (fun localName =>
            match nameOf imported with
            | Some name => if truthy name then name else localName
            | None => localName
            end)
      | ImportDefaultSpecifier local => push local (fun _ => "default")
      | ImportNamespaceSpecifier local => push local (fun _ => "*")
      | _ => trackImports sourcePath rest pendingImports
      end
  end.

(** The loop of [visit] over the declarators of a variable declaration. *)
Fixpoint declareAll (declarations : list ASTNode) (symbols : SymbolTable)
  : SymbolTable :=
  match declarations with
  | [] => symbols
  | VariableDeclarator (Identifier name) (Some init) :: rest =>
      declareAll rest (JsMap.set name (extractValue init symbols) symbols)
  | _ :: rest => declareAll rest symbols
  end.

Definition BuildState : Type := (SymbolTable * list PendingImport)%type.

(** [visit]: the three handlers, then the recursion into every child
    node, in the key order of Babel's nodes.  Fields that hold no node
    ([loc], [extra], strings, booleans) are visited by the code without
    any effect and are not modelled. *)
Fixpoint visit (node : ASTNode) (st : BuildState) : BuildState :=
  let st :=
    match node with
    | ImportDeclaration specifiers source =>
        (fst st, trackImports source specifiers (snd st))
    | _ => st
    end in
  let st :=
    match node with
    | VariableDeclaration declarations => (declareAll declarations (fst st), snd st)
    | _ => st
    end in
  let st :=
    match node with
    | ExportNamedDeclaration (Some (VariableDeclaration declarations)) =>
        (declareAll declarations (fst st), snd st)
    | _ => st
    end in
  let visitAll := fold_left (fun s child => visit child s) in
  match node with
  | StringLiteral _ | Identifier _ => st
  | MemberExpression object property _ => visit property (visit object st)
  | ConditionalExpression test consequent alternate =>
      visit alternate (visit consequent (visit test st))
  | TemplateLiteral _ expressions => visitAll expressions st
  | CallExpression callee arguments => visitAll arguments (visit callee st)
  | TSAsExpression expression | TSSatisfiesExpression expression =>
      visit expression st
  | ObjectExpression properties => visitAll properties st
  | ObjectProperty key value => visit value (visit key st)
  | VariableDeclaration declarations => visitAll declarations st
  | VariableDeclarator id init =>
      let st := visit id st in
      match init with Some init => visit init st | None => st end
  | ExportNamedDeclaration declaration =>
      match declaration with Some d => visit d st | None => st end
  | ImportDeclaration specifiers _ => visitAll specifiers st
  | ImportSpecifier local imported => visit local (visit imported st)
  | ImportDefaultSpecifier local | ImportNamespaceSpecifier local => visit local st
  | OtherNode _ children => visitAll children st
  end.

(** ** import-resolver.ts *)

Record FileReader : Type := mkFileReader {
  exists_ : string -> bool;
  (** [read] may throw: [None] stands for the exception *)
  read : string -> option string
}.

Definition ImportCache : Type := list (string * SymbolTable).

Definition clearImportCache (importCache : ImportCache) : ImportCache := [].

(** [getExportedValue] *)
Definition getExportedValue (symbols : SymbolTable) (exportName : string)
  : option ResolvedValue :=
  if String.eqb exportName "*" then
    Some (VObject
      (fold_left
         (fun properties '(name, value) =>
            match value with
            | VUnresolved => properties
            | _ => JsMap.set name value properties
            end) symbols []))
  else if String.eqb exportName "default" then JsMap.get "default" symbols
  else JsMap.get exportName symbols.

(** A computation that recurses through a callback is run with fuel;
    [OutOfFuel] is not a value of the program (in particular it is not an
    exception, and no [catch] sees it). *)
Inductive outcome (A : Type) : Type :=
| Done (a : A)
| OutOfFuel.
Arguments Done {A} a.
Arguments OutOfFuel {A}.

Record BuildSymbolTableOptions : Type := mkOptions {
  currentFilePath : option string;
  followImports : option bool;      (* default: true *)
  fileReader : FileReader
}.

Section Imports.
(** [dirname] and [resolve] of [node:path], and [parse] of
    [@babel/parser] with the options the code passes ([None]: the parser
    threw). *)
Variable dirname : string -> string.
Variable resolve : string -> string -> string.
Variable parse : string -> option ASTNode.

Definition extensions : list string := [".ts"; ".tsx"; ".js"; ".jsx"].

(** The three probing steps of [resolveImport]; the result is the final
    value of [resolvedPath] (which may still not exist). *)
Definition locateImport (fileReader : FileReader)
  (currentFilePath importPath : string) : string :=
  let currentDir := dirname currentFilePath in
  let resolvedPath := resolve currentDir importPath in
  let resolvedPath :=
    if exists_ fileReader resolvedPath then resolvedPath
    else match find (exists_ fileReader)
                 (map (fun ext => resolvedPath +++ ext) extensions) with
         | Some withExt => withExt
         | None => resolvedPath
         end in
  let resolvedPath :=
    if exists_ fileReader resolvedPath then resolvedPath
    else match find (exists_ fileReader)
                 (map (fun ext => resolve resolvedPath ("index" +++ ext))
                      extensions) with
         | Some indexPath => indexPath
         | None => resolvedPath
         end in
  resolvedPath.

(** [resolveImport]; the module-level [importCache] is passed in and
    returned.  [None] in the result is [undefined]. *)
Definition resolveImport (currentFilePath importPath importedName : string)
  (buildSymbolTableFn :
     ASTNode -> string -> ImportCache -> outcome (SymbolTable * ImportCache))
  (fileReader : FileReader) (importCache : ImportCache)
  : outcome (option ResolvedValue * ImportCache) :=
  let resolvedPath := locateImport fileReader currentFilePath importPath in
  if negb (exists_ fileReader resolvedPath) then Done (None, importCache)
  else
    match JsMap.get resolvedPath importCache with
    | Some cachedSymbols =>
        Done (getExportedValue cachedSymbols importedName, importCache)
    | None =>
        (* try *)
        match read fileReader resolvedPath with
        | None => Done (None, importCache)            (* catch *)
        | Some content =>
            match parse content with
            | None => Done (None, importCache)        (* catch *)
            | Some importedAst =>
                match buildSymbolTableFn importedAst resolvedPath importCache with
                | OutOfFuel => OutOfFuel
                | Done (importedSymbols, importCache) =>
                    Done (getExportedValue importedSymbols importedName,
                          JsMap.set resolvedPath importedSymbols importCache)
                end
            end
        end
    end.

(** The loop of [buildSymbolTable] over [pendingImports]. *)
Fixpoint resolvePendingImports (options : BuildSymbolTableOptions)
  (buildImportSymbolTable :
     ASTNode -> string -> ImportCache -> outcome (SymbolTable * ImportCache))
  (pendingImports : list PendingImport)
  (symbols : SymbolTable) (importCache : ImportCache)
  : outcome (SymbolTable * ImportCache) :=
  match pendingImports with
  | [] => Done (symbols, importCache)
  | p :: rest =>
      let follow :=
        match followImports options with Some b => b | None => true end in
      match currentFilePath options with
      | Some path =>
          if truthy path && follow then
            match resolveImport path (sourcePath p) (importedName p)
                    buildImportSymbolTable (fileReader options) importCache with
            | OutOfFuel => OutOfFuel
            | Done (Some resolvedValue, importCache) =>
                resolvePendingImports options buildImportSymbolTable rest
                  (JsMap.set (localName p) resolvedValue symbols) importCache
            | Done (None, importCache) =>
                resolvePendingImports options buildImportSymbolTable rest
                  (JsMap.set (localName p) VUnresolved symbols) importCache
            end
          else
            resolvePendingImports options buildImportSymbolTable rest
              (JsMap.set (localName p) VUnresolved symbols) importCache
      | None =>
          resolvePendingImports options buildImportSymbolTable rest
            (JsMap.set (localName p) VUnresolved symbols) importCache
      end
  end.

(** [buildSymbolTable]; each call made through [buildImportSymbolTable]
    uses one unit of fuel. *)
Fixpoint buildSymbolTable (fuel : nat) (ast : ASTNode)
  (options : BuildSymbolTableOptions) (importCache : ImportCache)
  : outcome (SymbolTable * ImportCache) :=
  match fuel with
  | O => OutOfFuel
  | S fuel =>
      let (symbols, pendingImports) := visit ast ([], []) in
      let buildImportSymbolTable (importAst : ASTNode) (filePath : string) :=
        buildSymbolTable fuel importAst
          (mkOptions (Some filePath) (Some false) (fileReader options)) in
      resolvePendingImports options buildImportSymbolTable
        pendingImports symbols importCache
  end.

End Imports.

(** * Auxiliary definitions used in the statements *)

(** ** Induction over syntax trees

    [ASTNode] nests through [list] and [option]; proofs go by induction on
    the number of nodes, which also reaches grandchildren (the receiver of
    a method call). *)

Fixpoint node_size (n : ASTNode) : nat :=
  let sizes := fun l => list_sum (map node_size l) in
  let osize := fun o => match o with Some m => node_size m | None => 0 end in
  S (match n with
     | StringLiteral _ | Identifier _ => 0
     | MemberExpression a b _ => node_size a + node_size b
     | ConditionalExpression a b c => node_size a + node_size b + node_size c
     | TemplateLiteral _ l => sizes l
     | CallExpression a l => node_size a + sizes l
     | TSAsExpression a | TSSatisfiesExpression a => node_size a
     | ObjectExpression l => sizes l
     | ObjectProperty a b => node_size a + node_size b
     | VariableDeclaration l => sizes l
     | VariableDeclarator a o => node_size a + osize o
     | ExportNamedDeclaration o => osize o
     | ImportDeclaration l _ => sizes l
     | ImportSpecifier a b => node_size a + node_size b
     | ImportDefaultSpecifier a | ImportNamespaceSpecifier a => node_size a
     | OtherNode _ l => sizes l
     end).

(** A result is coherent when its verdict and its fragment list agree. *)
Definition coherent (r : ResolutionResult) : Prop :=
  isFullyResolved r = false <-> unresolvedParts r <> [].

(** The value of the base of a member expression, as computed at the
    head of [resolveMemberExpression] ([None]: no value, which covers a
    base that is neither a name nor a member expression). *)
Definition baseValue (symbols : SymbolTable) (object : ASTNode)
  : option ResolvedValue :=
  match object with
  | Identifier name => JsMap.get name symbols
  | MemberExpression _ _ _ => resolveMemberExpressionToValue object symbols
  | _ => None
  end.

(** Every [String] leaf reachable in a value at any depth, in iteration
    order; object-typed values contribute only through their leaves. *)
Fixpoint stringLeaves (value : ResolvedValue) : list string :=
  match value with
  | VString s => [s]
  | VObject properties => flat_map (fun kv => stringLeaves (snd kv)) properties
  | VUnresolved => []
  end.

(** A property that the flattening passes over: [Unresolved], or a
    [String] whose text is empty. *)
Definition silent (value : ResolvedValue) : bool :=
  match value with
  | VUnresolved => true
  | VString s => negb (truthy s)
  | VObject _ => false
  end.

Definition withoutSilent (properties : list (string * ResolvedValue))
  : list (string * ResolvedValue) :=
  filter (fun kv => negb (silent (snd kv))) properties.

(** The text of a template with literal parts [L0, L1, ..., Ln] and
    embedded texts [t0, ..., t(n-1)]: [L0 + t0 + L1 + ... + Ln]. *)
Fixpoint templateText (quasis texts : list string) : string :=
  match quasis with
  | [] => ""
  | l :: ls =>
      match texts with
      | [] => l +++ templateText ls []
      | t :: ts => l +++ t +++ templateText ls ts
      end
  end.

(** A value without what the flattening passes over, at every depth:
    the properties that are [Unresolved] or an empty [String] are removed
    from an object and from the objects nested in it. *)
Fixpoint pruneSilent (value : ResolvedValue) : ResolvedValue :=
  match value with
  | VObject properties =>
      VObject
        ((fix prune (ps : list (string * ResolvedValue)) :=
            match ps with
            | [] => []
            | (k, v) :: rest =>
                if silent v then prune rest else (k, pruneSilent v) :: prune rest
            end) properties)
  | _ => value
  end.

(** The child nodes of a node, in the order [visit] recurses into them. *)
Definition childNodes (node : ASTNode) : list ASTNode :=
  let opt := fun o : option ASTNode => match o with Some m => [m] | None => [] end in
  match node with
  | StringLiteral _ | Identifier _ => []
  | MemberExpression object property _ => [object; property]
  | ConditionalExpression test consequent alternate => [test; consequent; alternate]
  | TemplateLiteral _ expressions => expressions
  | CallExpression callee arguments => callee :: arguments
  | TSAsExpression expression | TSSatisfiesExpression expression => [expression]
  | ObjectExpression properties => properties
  | ObjectProperty key value => [key; value]
  | VariableDeclaration declarations => declarations
  | VariableDeclarator id init => id :: opt init
  | ExportNamedDeclaration declaration => opt declaration
  | ImportDeclaration specifiers _ => specifiers
  | ImportSpecifier local imported => [imported; local]
  | ImportDefaultSpecifier local | ImportNamespaceSpecifier local => [local]
  | OtherNode _ children => children
  end.

(** Every node of a tree, at any depth, in the order [visit] reaches it. *)
Fixpoint allNodes (node : ASTNode) : list ASTNode :=
  let opt := fun o : option ASTNode =>
               match o with Some m => allNodes m | None => [] end in
  node ::
  match node with
  | StringLiteral _ | Identifier _ => []
  | MemberExpression object property _ => allNodes object ++ allNodes property
  | ConditionalExpression test consequent alternate =>
      allNodes test ++ allNodes consequent ++ allNodes alternate
  | TemplateLiteral _ expressions => flat_map allNodes expressions
  | CallExpression callee arguments => allNodes callee ++ flat_map allNodes arguments
  | TSAsExpression expression | TSSatisfiesExpression expression => allNodes expression
  | ObjectExpression properties => flat_map allNodes properties
  | ObjectProperty key value => allNodes key ++ allNodes value
  | VariableDeclaration declarations => flat_map allNodes declarations
  | VariableDeclarator id init => allNodes id ++ opt init
  | ExportNamedDeclaration declaration => opt declaration
  | ImportDeclaration specifiers _ => flat_map allNodes specifiers
  | ImportSpecifier local imported => allNodes imported ++ allNodes local
  | ImportDefaultSpecifier local | ImportNamespaceSpecifier local => allNodes local
  | OtherNode _ children => flat_map allNodes children
  end.

(** The names a list of declarators binds: those with an identifier and
    an initialiser. *)
Definition declaratorNames (declarations : list ASTNode) : list string :=
  flat_map (fun d => match d with
                     | VariableDeclarator (Identifier name) (Some _) => [name]
                     | _ => []
                     end) declarations.

(** The names a node binds by itself: a variable declaration, or a named
    export wrapping one. *)
Definition ownNames (node : ASTNode) : list string :=
  match node with
  | VariableDeclaration declarations => declaratorNames declarations
  | ExportNamedDeclaration (Some (VariableDeclaration declarations)) =>
      declaratorNames declarations
  | _ => []
  end.

(** The imports a node queues by itself. *)
Definition ownImports (node : ASTNode) : list PendingImport :=
  match node with
  | ImportDeclaration specifiers source => trackImports source specifiers []
  | _ => []
  end.

(** The names bound by variable declarations found at any depth of a
    tree, and the imports queued from import declarations found at any
    depth. *)
Definition declaredNames (ast : ASTNode) : list string :=
  flat_map ownNames (allNodes ast).

Definition pendingImportsOf (ast : ASTNode) : list PendingImport :=
  flat_map ownImports (allNodes ast).

(** The local name an import specifier binds: that of a named, default
    or namespace specifier whose local identifier has a non-empty name. *)
Definition specifierLocalName (spec : ASTNode) : option string :=
  match spec with
  | ImportSpecifier (Identifier name) _
  | ImportDefaultSpecifier (Identifier name)
  | ImportNamespaceSpecifier (Identifier name) =>
      if truthy name then Some name else None
  | _ => None
  end.

Definition specifierLocalNames (specifiers : list ASTNode) : list string :=
  flat_map (fun spec => match specifierLocalName spec with
                        | Some name => [name]
                        | None => []
                        end) specifiers.

(** The local names bound by the import declarations found at any depth
    of a tree. *)
Definition importLocalNames (ast : ASTNode) : list string :=
  flat_map (fun node => match node with
                        | ImportDeclaration specifiers _ =>
                            specifierLocalNames specifiers
                        | _ => []
                        end) (allNodes ast).

(** What the loop over the pending imports does when imports are not
    followed. *)
Definition markUnresolved (pendingImports : list PendingImport)
  (symbols : SymbolTable) : SymbolTable :=
  fold_left (fun s p => JsMap.set (localName p) VUnresolved s) pendingImports symbols.

(** What a traversal does to the state: the queue grows by the imports of
    the tree, the table gets exactly the declared names as new keys, and
    every other name keeps its value. *)
Definition visit_effect (before after : BuildState)
  (names : list string) (imports : list PendingImport) : Prop :=
  snd after = snd before ++ imports /\
  (forall name, In name (JsMap.keys (fst after))
                <-> In name (JsMap.keys (fst before)) \/ In name names) /\
  (forall name, ~ In name names ->
                JsMap.get name (fst after) = JsMap.get name (fst before)).

(** Whether [buildSymbolTable] chases the pending imports: it needs a
    (non-empty) current file path and [followImports], which defaults to
    true. *)
Definition chasesImports (options : BuildSymbolTableOptions) : bool :=
  match currentFilePath options with
  | Some path =>
      truthy path && match followImports options with Some b => b | None => true end
  | None => false
  end.

(** The table of a file whose imports are not chased: its declarations,
    then every import marked unresolved. *)
Definition unchasedTable (ast : ASTNode) : SymbolTable :=
  markUnresolved (pendingImportsOf ast) (fst (visit ast ([], []))).

(** The callback [buildImportSymbolTable] that [buildSymbolTable] hands
    to [resolveImport]: the builder itself, with [followImports: false]. *)
Definition buildImportSymbolTable (dirname : string -> string)
  (resolve : string -> string -> string) (parse : string -> option ASTNode)
  (fuel : nat) (fileReader : FileReader) (importAst : ASTNode) (filePath : string)
  : ImportCache -> outcome (SymbolTable * ImportCache) :=
  buildSymbolTable dirname resolve parse fuel importAst
    (mkOptions (Some filePath) (Some false) fileReader).

(** ** Sample inputs

    A small project under [/project], used to run the definitions: every
    path has directory [/project], a relative specifier [./x] resolves
    to [/project/x], and the parser knows the four source texts below. *)

Definition sampleDirname (path : string) : string := "/project".

Definition sampleResolve (dir specifier : string) : string :=
  match specifier with
  | String "."%char (String "/"%char rest) => dir +++ "/" +++ rest
  | _ => dir +++ "/" +++ specifier
  end.

Definition program (body : list ASTNode) : ASTNode :=
  OtherNode "File" [OtherNode "Program" body].

Definition constDeclaration (name : string) (init : ASTNode) : ASTNode :=
  VariableDeclaration [VariableDeclarator (Identifier name) (Some init)].

Definition namedImport (name source : string) : ASTNode :=
  ImportDeclaration [ImportSpecifier (Identifier name) (Identifier name)] source.

(** [function f() { const x = 'a'; }] *)
Definition nestedDeclarationAst : ASTNode :=
  program
    [OtherNode "FunctionDeclaration"
       [Identifier "f";
        OtherNode "BlockStatement" [constDeclaration "x" (StringLiteral "a")]]].

(** [export default 'default-value';] *)
Definition defaultExportSource : string := "export default 'default-value';".
Definition defaultExportAst : ASTNode :=
  program [OtherNode "ExportDefaultDeclaration" [StringLiteral "default-value"]].

(** [import tokens from './tokens';] *)
Definition defaultImportAst : ASTNode :=
  program [ImportDeclaration [ImportDefaultSpecifier (Identifier "tokens")] "./tokens"].

(** Two files that import each other. *)
Definition cycleASource : string := "import { b } from './b'; export const a = 'A';".
Definition cycleAAst : ASTNode :=
  program [namedImport "b" "./b";
           ExportNamedDeclaration (Some (constDeclaration "a" (StringLiteral "A")))].

Definition cycleBSource : string := "import { a } from './a'; export const b = 'B';".
Definition cycleBAst : ASTNode :=
  program [namedImport "a" "./a";
           ExportNamedDeclaration (Some (constDeclaration "b" (StringLiteral "B")))].

Definition brokenSource : string := "export const = ;".

Definition sampleParse (content : string) : option ASTNode :=
  if String.eqb content defaultExportSource then Some defaultExportAst
  else if String.eqb content cycleASource then Some cycleAAst
  else if String.eqb content cycleBSource then Some cycleBAst
  else None.

Definition sampleFiles : list (string * string) :=
  [ ("/project/tokens.ts", defaultExportSource);
    ("/project/a.ts", cycleASource);
    ("/project/b.ts", cycleBSource);
    ("/project/broken.ts", brokenSource) ].

(** A file reader over a fixed set of files; [read] throws on a path
    that is not there. *)
Definition readerOf (files : list (string * string)) : FileReader :=
  mkFileReader (fun path => JsMap.has path files) (fun path => JsMap.get path files).

Definition sampleOptions (file : string) : BuildSymbolTableOptions :=
  mkOptions (Some file) None (readerOf sampleFiles).


(** ** Shapes of expressions

    Families of expressions over which further properties are stated. *)

(** [root.n1.n2. ... .nk]: a chain of static accesses. *)
Definition staticChain (root : ASTNode) (names : list string) : ASTNode :=
  fold_left (fun e name => MemberExpression e (Identifier name) false) names root.

(** Following a path of property names through nested objects. *)
Definition lookupPath (start : option ResolvedValue) (names : list string)
  : option ResolvedValue :=
  fold_left
    (fun current name =>
       match current with
       | Some (VObject properties) => JsMap.get name properties
       | _ => None
       end) names start.

(** [receiver.m1(args1).m2(args2). ... ]: a tower of method calls. *)
Record MethodCall : Type := mkCall {
  method : string;
  methodComputed : bool;
  methodArguments : list ASTNode
}.

Definition callTower (receiver : ASTNode) (calls : list MethodCall) : ASTNode :=
  fold_left
    (fun e c =>
       CallExpression
         (MemberExpression e (Identifier (method c)) (methodComputed c))
         (methodArguments c)) calls receiver.

(** [t1 ? b1 : (t2 ? b2 : ( ... : last))]: nested conditionals. *)
Fixpoint conditionalChain (branches : list (ASTNode * ASTNode)) (last : ASTNode)
  : ASTNode :=
  match branches with
  | [] => last
  | (test, branch) :: rest =>
      ConditionalExpression test branch (conditionalChain rest last)
  end.

(** ** Object literals and declarations *)

(** The name a property key gives: identifier-style or quoted. *)
Definition keyNameOf (key : ASTNode) : option string :=
  match key with
  | Identifier name => Some name
  | StringLiteral value => Some value
  | _ => None
  end.

(** The value node of the last property of an object literal whose key
    is [k]; spread elements, methods and other keys are passed over. *)
Fixpoint lastValueFor (k : string) (props : list ASTNode) : option ASTNode :=
  match props with
  | [] => None
  | prop :: rest =>
      match lastValueFor k rest with
      | Some value => Some value
      | None =>
          match prop with
          | ObjectProperty key value =>
              match keyNameOf key with
              | Some k' => if String.eqb k k' then Some value else None
              | None => None
              end
          | _ => None
          end
      end
  end.

(** ** Import resolution *)

(** The paths [resolveImport] probes for a specifier resolved to [base],
    in probing order: the path as it is, the path with each extension,
    the [index] file of the path taken as a directory with each
    extension. *)
Definition importCandidates (resolve : string -> string -> string)
  (base : string) : list string :=
  base
  :: map (fun ext => base +++ ext) extensions
  ++ map (fun ext => resolve base ("index" +++ ext)) extensions.

Definition isUnresolved (value : ResolvedValue) : bool :=
  match value with
  | VUnresolved => true
  | _ => false
  end.

(** How the import cache may change during a build: entries are kept as
    they are, and a new entry is the table, built without chasing
    imports, of an existing file that was read and parsed. *)
Definition cacheGrows (parse : string -> option ASTNode) (reader : FileReader)
  (before after : ImportCache) : Prop :=
  (forall path table,
      JsMap.get path before = Some table -> JsMap.get path after = Some table) /\
  (forall path table,
      JsMap.get path after = Some table ->
      JsMap.get path before = Some table \/
      exists content importedAst,
        exists_ reader path = true /\
        read reader path = Some content /\
        parse content = Some importedAst /\
        table = unchasedTable importedAst).

(** The files of the sample project after [b.ts] has been edited. *)
Definition editedSource : string := "export const b = 'edited';".
Definition editedAst : ASTNode :=
  program [ExportNamedDeclaration (Some (constDeclaration "b" (StringLiteral "edited")))].

Definition editedParse (content : string) : option ASTNode :=
  if String.eqb content editedSource then Some editedAst else sampleParse content.

Definition editedFiles : list (string * string) :=
  JsMap.set "/project/b.ts" editedSource sampleFiles.

(** ** parsers/jsx.ts: the class name of an element

    The JSX parser resolves the value of a [className] attribute with
    [resolveExpression] of [parsers/resolver.ts], whose text is that of
    the resolver modelled above.  The value of an attribute is a string
    literal, an expression container, or something else (an element, a
    fragment). *)

Inductive AttributeValue : Type :=
| AttrStringLiteral (value : string)
| AttrExpressionContainer (expression : ASTNode)
| AttrOther.

Record ClassNameExtraction : Type := mkExtraction {
  literalParts : string;
  hasUnresolvedExpressions : bool;
  unresolvedExpressions : list string
}.

Definition extractClassNameFromExpression (expr : ASTNode) (symbols : SymbolTable)
  : ClassNameExtraction :=
  let result := resolveExpression expr symbols in
  mkExtraction (resolvedValue result) (negb (isFullyResolved result))
    (unresolvedParts result).

Definition extractClassNameFromValue (attrValue : AttributeValue)
  (symbols : SymbolTable) : ClassNameExtraction :=
  match attrValue with
  | AttrStringLiteral value => mkExtraction value false []
  | AttrExpressionContainer expr => extractClassNameFromExpression expr symbols
  | AttrOther => mkExtraction "" false []
  end.

(** ** analyzer.ts

    The consumer of the resolver's verdicts.  State names and element
    types are the strings they are at run time.  A record used as a
    dictionary is a [JsMap]; the [in] operator and the lookups are those
    of the record's own keys (element types are tag and role names, not
    names inherited from [Object.prototype]). *)

Definition StateName : Type := string.

Module ElementInfo.
Record t : Type := mk {
  tag : string;
  line : nat;
  states : list StateName;
  className : string;
  hasUnresolvedExpressions : bool;
  unresolvedExpressions : list string;
  isContentRegion : bool;
  canBeDisabled : bool;
  canBeInvalid : bool;
  hasPlaceholder : bool;
  isRadioOrCheckbox : bool;
  hasConditionalDisabled : bool
}.
End ElementInfo.

Module SelectorInfo.
Record t : Type := mk {
  selector : string;
  line : nat;
  states : list StateName
}.
End SelectorInfo.

Record StateLocation : Type := mkLocation {
  locationFile : string;
  locationLine : nat
}.

Record StateStatus : Type := mkStatus {
  present : bool;
  location : option StateLocation
}.

Module StateAnalysis.
Record t : Type := mk {
  selector : string;
  file : string;
  line : nat;
  elementType : string;
  states : list (string * StateStatus);
  requiredStates : list StateName;
  missingStates : list StateName;
  hasUnresolvedExpressions : bool;
  unresolvedExpressions : list string
}.
End StateAnalysis.

Module Coverage.
Record t : Type := mk {
  total : nat;
  present : nat;
  percentage : nat
}.
End Coverage.

(** [DEFAULT_REQUIRED_STATES] of [types.ts]. *)
Definition REQUIRED_STATES : list (string * list StateName) :=
  [ ("button", ["hover"; "focus"; "disabled"]);
    ("a", ["hover"; "focus"]);
    ("input", ["focus"; "disabled"]);
    ("select", ["focus"; "disabled"]);
    ("textarea", ["focus"; "disabled"]);
    ("role-button", ["hover"; "focus"; "disabled"]);
    ("role-link", ["hover"; "focus"]);
    ("unknown", ["hover"; "focus"]) ].

(** [customStates[elementType] ?? []] when the key is there, then the
    defaults, then the states of a bare selector. *)
Definition getRequiredStates (elementType : string)
  (customStates : option (list (string * option (list StateName))))
  : list StateName :=
  let defaults :=
    match JsMap.get elementType REQUIRED_STATES with
    | Some required => required
    | None => ["hover"; "focus"]
    end in
  match customStates with
  | Some custom =>
      match JsMap.get elementType custom with
      | Some (Some required) => required
      | Some None => []
      | None => defaults
      end
  | None => defaults
  end.

(** [array.includes(s)] on state names, [string.includes(needle)]. *)
Definition includesState (l : list StateName) (s : StateName) : bool :=
  existsb (String.eqb s) l.

Definition includes (s needle : string) : bool :=
  match String.index 0 needle s with Some _ => true | None => false end.

(** [Object.fromEntries(requiredStates.map(s => [s, status]))] *)
Definition statesRecord (requiredStates presentStates : list StateName)
  (file : string) (line : nat) : list (string * StateStatus) :=
  fold_left
    (fun record s =>
       JsMap.set s
         (mkStatus (includesState presentStates s)
            (if includesState presentStates s
             then Some (mkLocation file line) else None)) record)
    requiredStates [].

Definition without (s : StateName) (l : list StateName) : list StateName :=
  filter (fun x => negb (String.eqb x s)) l.

(** The required states of a JSX element: those of its type (or only
    [focus] for a content region), less the states that mean nothing for
    this element. *)
Definition requiredStatesOf
  (customStates : option (list (string * option (list StateName))))
  (element : ElementInfo.t) : list StateName :=
  let requiredStates :=
    if ElementInfo.isContentRegion element then ["focus"]
    else getRequiredStates (ElementInfo.tag element) customStates in
  let requiredStates :=
    if negb (ElementInfo.canBeDisabled element)
       || ElementInfo.hasConditionalDisabled element
    then without "disabled" requiredStates else requiredStates in
  let requiredStates :=
    if negb (ElementInfo.canBeInvalid element)
    then without "invalid" requiredStates else requiredStates in
  let requiredStates :=
    if negb (ElementInfo.hasPlaceholder element)
    then without "placeholder" requiredStates else requiredStates in
  if ElementInfo.isRadioOrCheckbox element
  then without "hover" requiredStates else requiredStates.

Record AuditResult (Threshold : Type) : Type := mkAudit {
  files : nat;
  elements : nat;
  analyses : list StateAnalysis.t;
  coverage : Coverage.t;
  unresolvedCount : nat;
  passed : bool;
  threshold : Threshold;
  parseErrors : list (string * string)
}.
Arguments mkAudit {Threshold}.
Arguments files {Threshold}.
Arguments elements {Threshold}.
Arguments analyses {Threshold}.
Arguments coverage {Threshold}.
Arguments unresolvedCount {Threshold}.
Arguments passed {Threshold}.
Arguments threshold {Threshold}.
Arguments parseErrors {Threshold}.

Section Analyzer.
(** What the analyzer takes from the JavaScript run time: the pattern
    test of [matchesPattern] (a [RegExp] built from the pattern),
    [String.prototype.toLowerCase], the floating point expression
    [Math.round((present / total) * 100)], and [>=] between that
    percentage and the threshold, a JavaScript number. *)
Variable matchesPattern : string -> string -> bool.
Variable toLowerCase : string -> string.
Variable roundedPercentage : nat -> nat -> nat.
Variable Threshold : Type.
Variable atLeast : nat -> Threshold -> bool.

Definition matchesAnyPattern (value : string) (patterns : list string) : bool :=
  existsb (matchesPattern value) patterns.

Definition inferElementType (selector : string) : string :=
  let lower := toLowerCase selector in
  if includes lower "button" || includes lower "btn" then "button"
  else if includes lower "link" || includes lower "anchor" then "a"
  else if includes lower "input" then "input"
  else if includes lower "select" then "select"
  else if includes lower "textarea" then "textarea"
  else "unknown".

Record AnalyzeOptions : Type := mkAnalyzeOptions {
  cssResults : list (string * list SelectorInfo.t);
  jsxResults : list (string * list ElementInfo.t);
  optThreshold : Threshold;
  customRequiredStates : option (list (string * option (list StateName)));
  ignoreSelectors : list string;        (* default: [] *)
  ignoreElements : list string          (* default: [] *)
}.

(** The body of the loop over the elements of a JSX file: [None] when
    the element is ignored. *)
Definition analyzeElement (options : AnalyzeOptions) (file : string)
  (element : ElementInfo.t) : option StateAnalysis.t :=
  let selectorValue :=
    if truthy (ElementInfo.className element) then ElementInfo.className element
    else "<" +++ ElementInfo.tag element +++ ">" in
  if negb (Nat.eqb (length (ignoreElements options)) 0)
     && matchesAnyPattern selectorValue (ignoreElements options)
  then None
  else
    let requiredStates := requiredStatesOf (customRequiredStates options) element in
    let presentStates := ElementInfo.states element in
    let missingStates :=
      if ElementInfo.hasUnresolvedExpressions element then []
      else filter (fun s => negb (includesState presentStates s)) requiredStates in
    Some (StateAnalysis.mk selectorValue file (ElementInfo.line element)
            (ElementInfo.tag element)
            (statesRecord requiredStates presentStates file (ElementInfo.line element))
            requiredStates missingStates
            (ElementInfo.hasUnresolvedExpressions element)
            (ElementInfo.unresolvedExpressions element)).

(** The body of the loop over the selectors of a style sheet. *)
Definition analyzeSelector (options : AnalyzeOptions) (file : string)
  (sel : SelectorInfo.t) : option StateAnalysis.t :=
  if negb (Nat.eqb (length (ignoreSelectors options)) 0)
     && matchesAnyPattern (SelectorInfo.selector sel) (ignoreSelectors options)
  then None
  else
    let elementType := inferElementType (SelectorInfo.selector sel) in
    let requiredStates := getRequiredStates elementType (customRequiredStates options) in
    let presentStates := SelectorInfo.states sel in
    let missingStates :=
      filter (fun s => negb (includesState presentStates s)) requiredStates in
    Some (StateAnalysis.mk (SelectorInfo.selector sel) file (SelectorInfo.line sel)
            elementType
            (statesRecord requiredStates presentStates file (SelectorInfo.line sel))
            requiredStates missingStates false []).

(** [analyses.push] over the items of every file, and [filesSet.add]. *)
Definition pushAll {Item : Type} (analyzeItem : string -> Item -> option StateAnalysis.t)
  (results : list (string * list Item))
  (acc : list StateAnalysis.t * list string) : list StateAnalysis.t * list string :=
  fold_left
    (fun '(analyses, filesSet) '(file, items) =>
       (fold_left
          (fun analyses item =>
             match analyzeItem file item with
             | Some analysis => analyses ++ [analysis]
             | None => analyses
             end) items analyses,
        if existsb (String.eqb file) filesSet then filesSet else filesSet ++ [file]))
    results acc.

Definition analyze (options : AnalyzeOptions) : AuditResult Threshold :=
  let acc := pushAll (analyzeElement options) (jsxResults options) ([], []) in
  let '(analyses, filesSet) := pushAll (analyzeSelector options) (cssResults options) acc in
  let resolvedAnalyses :=
    filter (fun a => negb (StateAnalysis.hasUnresolvedExpressions a)) analyses in
  let unresolvedCount :=
    length (filter StateAnalysis.hasUnresolvedExpressions analyses) in
  let totalRequired :=
    fold_left (fun sum a => sum + length (StateAnalysis.requiredStates a))
      resolvedAnalyses 0 in
  let totalPresent :=
    fold_left
      (fun sum a => sum + (length (StateAnalysis.requiredStates a)
                           - length (StateAnalysis.missingStates a)))
      resolvedAnalyses 0 in
  let percentage :=
    if Nat.ltb 0 totalRequired then roundedPercentage totalPresent totalRequired
    else 100 in
  mkAudit (length filesSet) (length analyses) analyses
    (Coverage.mk totalRequired totalPresent percentage)
    unresolvedCount (atLeast percentage (optThreshold options))
    (optThreshold options) [].

End Analyzer.

(** ** Statements about the analyzer *)

(** The analyses a loop of [analyze] pushes, in order. *)
Definition collected {Item : Type}
  (analyzeItem : string -> Item -> option StateAnalysis.t)
  (results : list (string * list Item)) : list StateAnalysis.t :=
  flat_map
    (fun fileResult =>
       flat_map
         (fun item =>
            match analyzeItem (fst fileResult) item with
            | Some analysis => [analysis]
            | None => []
            end) (snd fileResult)) results.

(** The JSX results without the elements that have unresolved
    expressions, and the options with other JSX results. *)
Definition dropUnresolvedElements (results : list (string * list ElementInfo.t))
  : list (string * list ElementInfo.t) :=
  map (fun fileResult =>
         (fst fileResult,
          filter (fun e => negb (ElementInfo.hasUnresolvedExpressions e))
            (snd fileResult))) results.

Definition withJsxResults {Threshold : Type} (options : AnalyzeOptions Threshold)
  (results : list (string * list ElementInfo.t)) : AnalyzeOptions Threshold :=
  mkAnalyzeOptions Threshold (cssResults Threshold options) results
    (optThreshold Threshold options) (customRequiredStates Threshold options)
    (ignoreSelectors Threshold options) (ignoreElements Threshold options).

(** The required and missing states summed over the analyses that count
    for coverage. *)
Definition resolvedOnly (l : list StateAnalysis.t) : list StateAnalysis.t :=
  filter (fun a => negb (StateAnalysis.hasUnresolvedExpressions a)) l.

Definition sumOf (f : StateAnalysis.t -> nat) (l : list StateAnalysis.t) : nat :=
  list_sum (map f l).

(** Sample run of the analyzer: a button styled for [hover] only, and a
    link whose class name could not be resolved. *)
Definition sampleButton : ElementInfo.t :=
  ElementInfo.mk "button" 3 ["hover"] "hover:bg-blue-500" false []
    false false false false false false.

Definition sampleDynamicLink : ElementInfo.t :=
  ElementInfo.mk "a" 7 [] "" true ["linkClasses"]
    false false false false false false.

Definition sampleAnalyzeOptions (elements : list ElementInfo.t)
  : AnalyzeOptions nat :=
  mkAnalyzeOptions nat [] [("/project/component.tsx", elements)] 80 None [] [].

Definition sampleAnalyze (options : AnalyzeOptions nat) : AuditResult nat :=
  analyze (fun _ _ => false) (fun s => s)
    (fun present total => (200 * present + total) / (2 * total))
    nat (fun percentage threshold => Nat.leb threshold percentage) options.

(** * Properties *)

(** ** The definitions on the project's test cases *)

Example literal_resolves :
  resolveExpression (StringLiteral "bg-blue-500") []
  = mkResult "bg-blue-500" true [].
Proof. reflexivity. Qed.

Example absent_name_is_unresolved :
  resolveExpression (Identifier "unknownVar") [] = mkResult "" false ["unknownVar"].
Proof. reflexivity. Qed.

Example conditional_unions_branches :
  resolveExpression
    (ConditionalExpression (Identifier "isActive")
       (StringLiteral "bg-blue-500") (StringLiteral "bg-gray-500")) []
  = mkResult "bg-blue-500 bg-gray-500" true [].
Proof. reflexivity. Qed.

Example computed_access_end_to_end :
  let ast :=
    program
      [constDeclaration "v"
         (ObjectExpression
            [ObjectProperty (Identifier "primary") (StringLiteral "a");
             ObjectProperty (Identifier "secondary") (StringLiteral "b")])] in
  let symbols := fst (visit ast ([], [])) in
  symbols = [("v", VObject [("primary", VString "a"); ("secondary", VString "b")])] /\
  resolveExpression (MemberExpression (Identifier "v") (Identifier "x") true) symbols
  = mkResult "a b" true [].
Proof. split; reflexivity. Qed.

Example missing_key_is_unresolved :
  resolveExpression
    (MemberExpression (Identifier "obj") (Identifier "missingKey") false)
    [("obj", VObject [("exists", VString "x")])]
  = mkResult "" false ["obj.missingKey"].
Proof. reflexivity. Qed.

Example passthrough_method_is_unwrapped :
  resolveExpression
    (CallExpression
       (MemberExpression (Identifier "cls") (Identifier "trim") false) [])
    [("cls", VString "px-4")]
  = mkResult "px-4" true [].
Proof. reflexivity. Qed.

Example rendering_of_access_paths :
  stringifyExpr
    (MemberExpression
       (MemberExpression (Identifier "tokens") (Identifier "effects") false)
       (Identifier "focusRing") false)
  = "tokens.effects.focusRing" /\
  stringifyExpr
    (MemberExpression (Identifier "variantClasses") (Identifier "variant") true)
  = "variantClasses[variant]".
Proof. split; reflexivity. Qed.

(** A template initialiser sees the table built so far: [t] is declared
    after [s], [u] before [w]. *)
Example template_bindings_use_the_table_so_far :
  let template := fun name => TemplateLiteral [""; " q"] [Identifier name] in
  fst (visit
         (program [constDeclaration "s" (StringLiteral "p");
                   constDeclaration "t" (template "s");
                   constDeclaration "u" (template "w");
                   constDeclaration "w" (StringLiteral "late")])
         ([], []))
  = [("s", VString "p"); ("t", VString "p q"); ("u", VUnresolved);
     ("w", VString "late")].
Proof. reflexivity. Qed.

Lemma node_size_in (l : list ASTNode) (c : ASTNode) :
  In c l -> node_size c <= list_sum (map node_size l).
Proof.
  induction l as [|a l IH]; simpl; [contradiction|].
  intros [->|Hin]; [lia|]. specialize (IH Hin). lia.
Qed.

Lemma ASTNode_size_ind (P : ASTNode -> Prop) :
  (forall n, (forall m, node_size m < node_size n -> P m) -> P n) ->
  forall n, P n.
Proof.
  intros step n.
  remember (node_size n) as k eqn:Hk.
  revert n Hk. induction k as [k IH] using lt_wf_ind.
  intros n ->. apply step. intros m Hm. exact (IH _ Hm m eq_refl).
Qed.

(** ** The verdict and the fragment list agree *)

Lemma coherent_resolved (text : string) : coherent (mkResult text true []).
Proof. split; simpl; [discriminate | congruence]. Qed.

Lemma coherent_unresolved (text : string) (part : string) :
  coherent (mkResult text false [part]).
Proof. split; simpl; [discriminate | reflexivity]. Qed.

Create HintDb resolver.
#[local] Hint Resolve coherent_resolved coherent_unresolved : resolver.

Lemma coherent_union (text : string) (r1 r2 : ResolutionResult) :
  coherent r1 -> coherent r2 ->
  coherent (mkResult text (isFullyResolved r1 && isFullyResolved r2)
              (unresolvedParts r1 ++ unresolvedParts r2)).
Proof.
  destruct r1 as [t1 [] [|p1 u1]], r2 as [t2 [] [|p2 u2]];
    unfold coherent; simpl; intuition (discriminate || congruence).
Qed.

Lemma resolveMemberExpression_coherent (expr : ASTNode) (symbols : SymbolTable) :
  coherent (resolveMemberExpression expr symbols).
Proof.
  unfold resolveMemberExpression, unresolvedAs.
  repeat match goal with
         | |- coherent (match ?x with _ => _ end) => destruct x
         | |- coherent (if ?x then _ else _) => destruct x
         end; auto with resolver.
Qed.

Lemma resolveTemplateLoop_coherent (resolve : ASTNode -> ResolutionResult)
  (es : list ASTNode) :
  (forall e, In e es -> coherent (resolve e)) ->
  forall qs parts unresolved allResolved,
    (allResolved = false <-> unresolved <> []) ->
    coherent (resolveTemplateLoop resolve es qs parts unresolved allResolved).
Proof.
  induction es as [|e es IH]; intros Hes qs parts unresolved allResolved Hacc;
    simpl.
  - exact Hacc.
  - destruct qs as [|q qs]; [exact Hacc|].
    assert (He : coherent (resolve e)) by (apply Hes; now left).
    assert (Hes' : forall e', In e' es -> coherent (resolve e'))
      by (intros e' Hin; apply Hes; now right).
    destruct (isFullyResolved (resolve e)) eqn:Hfull.
    + now apply IH.
    + apply IH; [exact Hes'|]. split; [intros _|reflexivity].
      destruct He as [He _]. specialize (He Hfull).
      intros Happ. apply app_eq_nil in Happ. now destruct Happ.
Qed.

Lemma resolveExpression_coherent (symbols : SymbolTable) (expr : ASTNode) :
  coherent (resolveExpression expr symbols).
Proof.
  induction expr as [expr IH] using ASTNode_size_ind.
  destruct expr; cbn [resolveExpression]; unfold unresolvedAs;
    auto with resolver.
  - destruct (JsMap.get name symbols) as [[]|]; auto with resolver.
  - apply resolveMemberExpression_coherent.
  - apply coherent_union; apply IH; simpl; lia.
  - apply resolveTemplateLoop_coherent.
    + intros e Hin. apply IH. simpl.
      pose proof (node_size_in _ _ Hin). lia.
    + split; [discriminate | congruence].
  - destruct expr; auto with resolver.
    destruct expr2; auto with resolver.
    destruct (truthy name && _); auto with resolver.
    apply IH. simpl. lia.
Qed.

(** C1.  For every expression node and every binding table, the result
    of [resolveExpression] has [isFullyResolved = false] exactly when
    [unresolvedParts] is non-empty; equivalently a fully resolved result
    carries no fragment and a result that is not fully resolved carries
    at least one.  The proof covers every node kind, nested to any depth. *)
Theorem C1_fully_resolved_iff_no_unresolved_parts :
  forall (expr : ASTNode) (symbols : SymbolTable),
    let r := resolveExpression expr symbols in
    (isFullyResolved r = false <-> unresolvedParts r <> []) /\
    (isFullyResolved r = true -> unresolvedParts r = []) /\
    (isFullyResolved r = false -> exists part rest, unresolvedParts r = part :: rest).
Proof.
  intros expr symbols r.
  pose proof (resolveExpression_coherent symbols expr) as H.
  fold r in H. unfold coherent in H. split; [exact H|]. split.
  - intros Ht. destruct (unresolvedParts r) as [|p ps] eqn:E; [reflexivity|].
    assert (Hf : isFullyResolved r = false) by (apply H; discriminate).
    congruence.
  - intros Hf. destruct (unresolvedParts r) as [|p ps] eqn:E.
    + exfalso. now apply (proj1 H Hf).
    + now exists p, ps.
Qed.

(** ** Computed access flattens the object *)

Lemma ResolvedValue_nested_ind (P : ResolvedValue -> Prop) :
  (forall s, P (VString s)) ->
  (forall ps, Forall (fun kv => P (snd kv)) ps -> P (VObject ps)) ->
  P VUnresolved ->
  forall v, P v.
Proof.
  intros Hs Ho Hu. fix IH 1. intros [s|ps|]; [apply Hs| |apply Hu].
  apply Ho. induction ps as [|[k v] ps IHps]; constructor.
  - apply IH.
  - exact IHps.
Qed.

Lemma collectAllStrings_leaves (value : ResolvedValue) :
  forall result,
    collectAllStrings value result = result ++ filter truthy (stringLeaves value).
Proof.
  induction value as [s|ps IH|] using ResolvedValue_nested_ind; intros result;
    simpl.
  - destruct (truthy s); simpl; [reflexivity | now rewrite app_nil_r].
  - revert result. induction IH as [|[k v] ps Hv _ IHps]; intros result; simpl.
    + now rewrite app_nil_r.
    + rewrite IHps, Hv, filter_app, app_assoc. reflexivity.
  - now rewrite app_nil_r.
Qed.

Lemma unionAllValues_leaves (properties : list (string * ResolvedValue)) :
  forall allValues,
    unionAllValues properties allValues
    = allValues ++ filter truthy (stringLeaves (VObject properties)).
Proof.
  induction properties as [|[k v] ps IH]; intros allValues; simpl.
  - now rewrite app_nil_r.
  - rewrite filter_app. destruct v as [s|qs|].
    + rewrite IH. simpl. destruct (truthy s); simpl;
        [now rewrite <- app_assoc | reflexivity].
    + rewrite IH, collectAllStrings_leaves, <- app_assoc. reflexivity.
    + rewrite IH. reflexivity.
Qed.

Lemma unionAllValues_withoutSilent (properties : list (string * ResolvedValue)) :
  forall allValues,
    unionAllValues (withoutSilent properties) allValues
    = unionAllValues properties allValues.
Proof.
  induction properties as [|[k v] ps IH]; intros allValues; [reflexivity|].
  unfold withoutSilent in *. simpl. destruct v as [s|qs|]; simpl.
  - destruct (truthy s) eqn:E; simpl; rewrite ?E; now rewrite IH.
  - now rewrite IH.
  - now rewrite IH.
Qed.

Lemma unionAllValues_all_unresolved (properties : list (string * ResolvedValue)) :
  Forall (fun kv => snd kv = VUnresolved) properties ->
  forall allValues, unionAllValues properties allValues = allValues.
Proof.
  induction 1 as [|[k v] ps Hv _ IH]; intros allValues; [reflexivity|].
  simpl in Hv. subst v. simpl. apply IH.
Qed.

Lemma computed_access_on_object (symbols : SymbolTable)
  (object index : ASTNode) (properties : list (string * ResolvedValue)) :
  baseValue symbols object = Some (VObject properties) ->
  resolveExpression (MemberExpression object index true) symbols
  = mkResult (String.concat " " (unionAllValues properties [])) true [].
Proof.
  intros Hbase. cbn [resolveExpression]. unfold resolveMemberExpression.
  destruct object; unfold baseValue in Hbase; try discriminate;
    rewrite Hbase; reflexivity.
Qed.

(** C2, as stated, fails: a [String] leaf whose text is empty is passed
    over, so the text is not the space-joined concatenation of every
    String leaf.  With [a = { x: "", y: "b" }], [a[k]] resolves to ["b"],
    while joining every leaf gives [" b"]. *)
Lemma C2_counterexample_empty_leaf :
  let properties := [("x", VString ""); ("y", VString "b")] in
  let symbols := [("a", VObject properties)] in
  let expr := MemberExpression (Identifier "a") (Identifier "k") true in
  baseValue symbols (Identifier "a") = Some (VObject properties) /\
  resolvedValue (resolveExpression expr symbols) = "b" /\
  String.concat " " (stringLeaves (VObject properties)) = " b" /\
  resolvedValue (resolveExpression expr symbols)
  <> String.concat " " (stringLeaves (VObject properties)).
Proof. repeat split; try reflexivity. vm_compute. discriminate. Qed.

(** C2, amended.  For every computed access [a[expr]] whose base resolves
    to an Object value, [resolveExpression] returns the space-joined
    concatenation of every non-empty String leaf reachable at any nesting
    depth of that object (in iteration order; object-typed intermediate
    values contribute no text themselves), with [isFullyResolved = true]
    and no unresolved part, whatever the index expression is. *)
Theorem C2_computed_access_unions_nonempty_leaves :
  forall (symbols : SymbolTable) (object index : ASTNode)
         (properties : list (string * ResolvedValue)),
    baseValue symbols object = Some (VObject properties) ->
    resolveExpression (MemberExpression object index true) symbols
    = mkResult
        (String.concat " " (filter truthy (stringLeaves (VObject properties))))
        true [].
Proof.
  intros symbols object index properties Hbase.
  rewrite (computed_access_on_object _ _ _ _ Hbase).
  now rewrite unionAllValues_leaves.
Qed.

Lemma C2_witness_nested_object :
  let sizes := VObject [("sm", VString "text-sm"); ("lg", VString "text-lg")] in
  let properties := [("primary", VString "bg-blue-500"); ("sizes", sizes)] in
  let symbols := [("tokens", VObject [("variants", VObject properties)])] in
  let object := MemberExpression (Identifier "tokens") (Identifier "variants") false in
  resolveExpression (MemberExpression object (Identifier "size") true) symbols
  = mkResult "bg-blue-500 text-sm text-lg" true [].
Proof.
  intros sizes properties symbols object.
  exact (C2_computed_access_unions_nonempty_leaves
           symbols object (Identifier "size") properties eq_refl).
Defined.

Lemma stringLeaves_pruneSilent (value : ResolvedValue) :
  silent value = false ->
  stringLeaves (pruneSilent value) = filter truthy (stringLeaves value).
Proof.
  induction value as [s|ps IH|] using ResolvedValue_nested_ind; intros Hs.
  - simpl in *. destruct (truthy s); [reflexivity | discriminate].
  - clear Hs. cbn [pruneSilent stringLeaves].
    induction IH as [|[k v] rest Hv _ IHrest]; [reflexivity|].
    cbn [flat_map snd] in *. rewrite filter_app, <- IHrest.
    destruct (silent v) eqn:Hsilent.
    + destruct v as [s|qs|]; simpl in Hsilent; try discriminate.
      * cbn [stringLeaves filter].
        destruct (truthy s); [discriminate | reflexivity].
      * reflexivity.
    + cbn [flat_map snd]. now rewrite (Hv eq_refl).
  - discriminate.
Qed.

(** C10.  In a computed access on an Object value, the properties that
    are [Unresolved] and the String leaves whose text is empty are passed
    over silently, at every nesting depth: the access is fully resolved
    with no unresolved part, and its text is the space-joined String
    leaves of the object from which the Unresolved values and the empty
    Strings have been removed at every depth (which is also the text
    obtained after removing them from the object's own properties only).
    In particular, when every property is [Unresolved] the result is the
    empty text, fully resolved, with no unresolved part. *)
Theorem C10_computed_access_drops_silent_properties :
  forall (symbols : SymbolTable) (object index : ASTNode)
         (properties : list (string * ResolvedValue)),
    baseValue symbols object = Some (VObject properties) ->
    let r := resolveExpression (MemberExpression object index true) symbols in
    isFullyResolved r = true /\
    unresolvedParts r = [] /\
    resolvedValue r
    = String.concat " " (unionAllValues (withoutSilent properties) []) /\
    resolvedValue r
    = String.concat " " (stringLeaves (pruneSilent (VObject properties))) /\
    (Forall (fun kv => snd kv = VUnresolved) properties ->
     r = mkResult "" true []).
Proof.
  intros symbols object index properties Hbase r. subst r.
  rewrite (computed_access_on_object _ _ _ _ Hbase).
  cbn [isFullyResolved unresolvedParts resolvedValue].
  split; [reflexivity|]. split; [reflexivity|]. split; [|split].
  - now rewrite unionAllValues_withoutSilent.
  - rewrite unionAllValues_leaves. cbn [app].
    now rewrite (stringLeaves_pruneSilent (VObject properties) eq_refl).
  - intros Hall. now rewrite (unionAllValues_all_unresolved _ Hall).
Qed.

Lemma C10_witness_all_unresolved :
  let properties := [("a", VUnresolved); ("b", VUnresolved)] in
  let symbols := [("v", VObject properties)] in
  let r := resolveExpression
             (MemberExpression (Identifier "v") (Identifier "k") true) symbols in
  isFullyResolved r = true /\
  unresolvedParts r = [] /\
  resolvedValue r
  = String.concat " " (unionAllValues (withoutSilent properties) []) /\
  resolvedValue r
  = String.concat " " (stringLeaves (pruneSilent (VObject properties))) /\
  (Forall (fun kv => snd kv = VUnresolved) properties ->
   r = mkResult "" true []).
Proof.
  intros properties symbols.
  exact (C10_computed_access_drops_silent_properties
           symbols (Identifier "v") (Identifier "k") properties eq_refl).
Defined.

(** Silent values nested in sub-objects are passed over as well. *)
Example nested_silent_values_are_dropped :
  let inner := VObject [("x", VString ""); ("y", VUnresolved); ("z", VString "c")] in
  let properties :=
    [("a", VString "a"); ("u", VUnresolved); ("e", VString ""); ("n", inner)] in
  resolveExpression (MemberExpression (Identifier "v") (Identifier "k") true)
    [("v", VObject properties)]
  = mkResult "a c" true [] /\
  pruneSilent (VObject properties)
  = VObject [("a", VString "a"); ("n", VObject [("z", VString "c")])].
Proof. split; reflexivity. Qed.

(** ** Walking a chain of property accesses *)

Example walk_object_base :
  let colorsValue := VObject [("primary", VString "text-blue-500")] in
  let symbols := [("tokens", VObject [("colors", colorsValue)])] in
  let colors := MemberExpression (Identifier "tokens") (Identifier "colors") false in
  resolveMemberExpressionToValue colors symbols = Some colorsValue /\
  resolveExpression (MemberExpression colors (Identifier "primary") false) symbols
  = mkResult "text-blue-500" true [].
Proof. split; reflexivity. Qed.

(** C3, as stated, fails: a String-typed base is not walkable.  With
    [a = { b: "x" }] the base [a.b] of [a.b.c] resolves to the String
    ["x"]; the walk through it yields nothing, and [a.b.c] is unresolved
    with the one fragment ["a.b.c"], exactly as for a base of any other
    non-Object shape (here the undefined [a.b.c] under [a.b.c.d]). *)
Lemma C3_counterexample_string_base :
  let symbols := [("a", VObject [("b", VString "x")])] in
  let a_b := MemberExpression (Identifier "a") (Identifier "b") false in
  let a_b_c := MemberExpression a_b (Identifier "c") false in
  let a_b_c_d := MemberExpression a_b_c (Identifier "d") false in
  baseValue symbols a_b = Some (VString "x") /\
  resolveMemberExpressionToValue a_b_c symbols = None /\
  resolveExpression a_b_c symbols = mkResult "" false ["a.b.c"] /\
  baseValue symbols a_b_c = None /\
  resolveExpression a_b_c_d symbols = mkResult "" false ["a.b.c.d"].
Proof. repeat split; reflexivity. Qed.

(** C3, amended.  When resolving a nested property-access chain, the
    recursive walk of the base succeeds only for a base whose resolved
    value is Object-typed: it then yields the property of that object
    named by an identifier property (nothing for another property node or
    a missing key).  A base of any other shape (String-typed, Unresolved,
    without a value, or not a name or member expression) stops the walk
    and makes the whole access unresolved with one fragment rendering the
    full access path. *)
Theorem C3_only_object_bases_are_walkable :
  forall (symbols : SymbolTable) (object property : ASTNode) (computed : bool),
    let expr := MemberExpression object property computed in
    match baseValue symbols object with
    | Some (VObject properties) =>
        resolveMemberExpressionToValue expr symbols
        = match property with
          | Identifier name => JsMap.get name properties
          | _ => None
          end
    | _ =>
        resolveMemberExpressionToValue expr symbols = None /\
        resolveExpression expr symbols = mkResult "" false [stringifyExpr expr]
    end.
Proof.
  intros symbols object property computed expr. subst expr.
  cbn [resolveExpression]. unfold resolveMemberExpression, unresolvedAs.
  cbn [resolveMemberExpressionToValue]. unfold baseValue.
  destruct object; try (split; reflexivity).
  - destruct (JsMap.get name symbols) as [[s|ps|]|];
      try (split; reflexivity); reflexivity.
  - destruct (resolveMemberExpressionToValue
                (MemberExpression object1 object2 computed0) symbols)
      as [[s|ps|]|]; try (split; reflexivity); reflexivity.
Qed.

(** ** Templates *)

Lemma append_nil_r (s : string) : s +++ "" = s.
Proof. induction s as [|c s IH]; simpl; [reflexivity | now rewrite IH]. Qed.

Lemma append_assoc (a b c : string) : (a +++ b) +++ c = a +++ b +++ c.
Proof. induction a as [|x a IH]; simpl; [reflexivity | now rewrite IH]. Qed.

Lemma concat_empty_cons (x : string) (xs : list string) :
  String.concat "" (x :: xs) = x +++ String.concat "" xs.
Proof. destruct xs; simpl; [now rewrite append_nil_r | reflexivity]. Qed.

Lemma concat_empty_app (a b : list string) :
  String.concat "" (a ++ b) = String.concat "" a +++ String.concat "" b.
Proof.
  induction a as [|x a IH]; [reflexivity|].
  rewrite <- app_comm_cons, !concat_empty_cons, IH, append_assoc. reflexivity.
Qed.

Lemma templateText_no_texts (quasis : list string) :
  templateText quasis [] = String.concat "" quasis.
Proof.
  induction quasis as [|q qs IH]; [reflexivity|].
  rewrite concat_empty_cons. simpl. now rewrite IH.
Qed.

Lemma resolveTemplateLoop_spec (resolve : ASTNode -> ResolutionResult)
  (es : list ASTNode) :
  forall qs parts unresolved allResolved,
    length qs = S (length es) ->
    resolveTemplateLoop resolve es qs parts unresolved allResolved
    = mkResult
        (String.concat "" parts
         +++ templateText qs (map (fun e => resolvedValue (resolve e)) es))
        (allResolved && forallb (fun e => isFullyResolved (resolve e)) es)
        (unresolved
         ++ flat_map (fun e => if isFullyResolved (resolve e) then []
                               else unresolvedParts (resolve e)) es).
Proof.
  induction es as [|e es IH]; intros qs parts unresolved allResolved Hlen.
  - simpl. rewrite concat_empty_app, templateText_no_texts, andb_true_r, app_nil_r.
    reflexivity.
  - destruct qs as [|q qs]; [discriminate|]. simpl in Hlen.
    injection Hlen as Hlen. cbn [resolveTemplateLoop map forallb flat_map templateText].
    destruct (isFullyResolved (resolve e)); rewrite (IH _ _ _ _ Hlen);
      rewrite concat_empty_app, !concat_empty_cons; cbn [String.concat];
      rewrite append_nil_r, !append_assoc; f_equal; cbn [andb app];
      rewrite ?andb_false_r, ?app_assoc; reflexivity.
Qed.

Lemma flat_map_unresolved_parts (symbols : SymbolTable) (es : list ASTNode) :
  flat_map (fun e => if isFullyResolved (resolveExpression e symbols) then []
                     else unresolvedParts (resolveExpression e symbols)) es
  = flat_map (fun e => unresolvedParts (resolveExpression e symbols)) es.
Proof.
  induction es as [|e es IH]; [reflexivity|]. simpl. rewrite IH. f_equal.
  pose proof (resolveExpression_coherent symbols e) as [_ H].
  destruct (isFullyResolved (resolveExpression e symbols)); [|reflexivity].
  destruct (unresolvedParts (resolveExpression e symbols)); [reflexivity|].
  discriminate H. discriminate.
Qed.

(** C6.  For every template literal with literal parts [L0..Ln] and
    embedded expressions [E0..E(n-1)], [resolveExpression] returns the
    text [L0 + resolve(E0).text + L1 + ... + Ln] in source order, each
    embedded text being appended whether or not the expression resolved;
    the result is fully resolved iff every embedded expression is, and
    its unresolved parts are the embedded expressions' unresolved parts,
    concatenated in order. *)
Theorem C6_template_literal_in_source_order :
  forall (symbols : SymbolTable) (quasis : list string) (expressions : list ASTNode),
    length quasis = S (length expressions) ->
    let results := map (fun e => resolveExpression e symbols) expressions in
    let r := resolveExpression (TemplateLiteral quasis expressions) symbols in
    resolvedValue r = templateText quasis (map resolvedValue results) /\
    (isFullyResolved r = true <->
     forall e, In e expressions ->
               isFullyResolved (resolveExpression e symbols) = true) /\
    unresolvedParts r = flat_map unresolvedParts results.
Proof.
  intros symbols quasis expressions Hlen results r. subst r results.
  cbn [resolveExpression].
  rewrite (resolveTemplateLoop_spec _ _ _ _ _ _ Hlen).
  cbn [resolvedValue isFullyResolved unresolvedParts String.concat app andb].
  rewrite map_map, flat_map_unresolved_parts. repeat split.
  - intros H e Hin. rewrite forallb_forall in H. now apply H.
  - intros H. apply forallb_forall. exact H.
  - clear. induction expressions as [|e es IH]; [reflexivity|].
    simpl. now rewrite IH.
Qed.

Lemma C6_witness_mixed_template :
  let symbols := [("s", VString "p")] in
  let quasis := ["<"; " q "; ">"] in
  let expressions := [Identifier "s"; Identifier "unknown"] in
  let r := resolveExpression (TemplateLiteral quasis expressions) symbols in
  length quasis = S (length expressions) /\
  r = mkResult "<p q >" false ["unknown"] /\
  (resolvedValue r
   = templateText quasis
       (map resolvedValue (map (fun e => resolveExpression e symbols) expressions)) /\
   (isFullyResolved r = true <->
    forall e, In e expressions ->
              isFullyResolved (resolveExpression e symbols) = true) /\
   unresolvedParts r
   = flat_map unresolvedParts (map (fun e => resolveExpression e symbols) expressions)).
Proof.
  intros symbols quasis expressions r.
  split; [reflexivity|]. split; [reflexivity|].
  exact (C6_template_literal_in_source_order symbols quasis expressions eq_refl).
Defined.

(** ** Template initialisers of bindings *)

Lemma extractTemplateLoop_spec (symbols : SymbolTable) (es : list ASTNode) :
  forall qs parts allResolved,
    length qs = S (length es) ->
    let full := fun e => isFullyResolved (resolveExpression e symbols) in
    let text := fun e => resolvedValue (resolveExpression e symbols) in
    snd (extractTemplateLoop symbols es qs parts allResolved)
    = allResolved && forallb full es /\
    (forallb full es = true ->
     String.concat "" (fst (extractTemplateLoop symbols es qs parts allResolved))
     = String.concat "" parts +++ templateText qs (map text es)).
Proof.
  induction es as [|e es IH]; intros qs parts allResolved Hlen full text.
  - simpl. rewrite andb_true_r, concat_empty_app, templateText_no_texts.
    split; [reflexivity | intros _; reflexivity].
  - destruct qs as [|q qs]; [discriminate|]. simpl in Hlen.
    injection Hlen as Hlen.
    cbn [extractTemplateLoop map forallb templateText]. subst full text.
    destruct (isFullyResolved (resolveExpression e symbols)) eqn:E.
    + destruct (IH qs (parts ++ [q; resolvedValue (resolveExpression e symbols)])
                  allResolved Hlen) as [Hsnd Hfst].
      split; [exact Hsnd|]. intros Hall. rewrite (Hfst Hall).
      rewrite concat_empty_app, !concat_empty_cons. cbn [String.concat].
      now rewrite append_nil_r, !append_assoc.
    + destruct (IH qs (parts ++ [q]) false Hlen) as [Hsnd _].
      split; [|discriminate]. rewrite Hsnd. now rewrite andb_false_r.
Qed.

(** C5.  In [buildSymbolTable], a binding whose initialiser is a string
    template is all-or-nothing.  Without embedded expressions it is the
    String of the concatenated literal parts.  With embedded expressions
    it is the String of the full concatenation when every embedded
    expression fully resolves against the table built so far (the table
    [extractValue] is given), and Unresolved otherwise: never a partial
    string. *)
Theorem C5_template_binding_all_or_nothing :
  forall (symbols : SymbolTable) (quasis : list string) (expressions : list ASTNode),
    length quasis = S (length expressions) ->
    let full := fun e => isFullyResolved (resolveExpression e symbols) in
    let text := fun e => resolvedValue (resolveExpression e symbols) in
    (expressions = [] ->
     extractValue (TemplateLiteral quasis expressions) symbols
     = VString (String.concat "" quasis)) /\
    (expressions <> [] ->
     extractValue (TemplateLiteral quasis expressions) symbols
     = if forallb full expressions
       then VString (templateText quasis (map text expressions))
       else VUnresolved).
Proof.
  intros symbols quasis expressions Hlen full text. split.
  - intros ->. reflexivity.
  - intros Hne. destruct expressions as [|e es]; [congruence|].
    cbn [extractValue].
    destruct (extractTemplateLoop_spec symbols (e :: es) quasis [] true Hlen)
      as [Hsnd Hfst].
    destruct (extractTemplateLoop symbols (e :: es) quasis [] true)
      as [parts allResolved].
    simpl fst in Hfst. simpl snd in Hsnd. subst allResolved.
    fold full in Hfst |- *. fold text in Hfst.
    destruct (forallb full (e :: es)); [|reflexivity].
    simpl andb. now rewrite (Hfst eq_refl).
Qed.

Lemma C5_witness_template_bindings :
  let symbols := [("s", VString "p")] in
  (length ["<"; ">"] = S (length [Identifier "s"]) /\
   extractValue (TemplateLiteral ["<"; ">"] [Identifier "s"]) symbols
   = VString "<p>") /\
  (length ["<"; " "; ">"] = S (length [Identifier "s"; Identifier "t"]) /\
   extractValue (TemplateLiteral ["<"; " "; ">"] [Identifier "s"; Identifier "t"])
     symbols
   = VUnresolved).
Proof.
  intros symbols. split; (split; [reflexivity|]).
  - exact (proj2 (C5_template_binding_all_or_nothing
                    symbols ["<"; ">"] [Identifier "s"] eq_refl)
             ltac:(discriminate)).
  - exact (proj2 (C5_template_binding_all_or_nothing
                    symbols ["<"; " "; ">"] [Identifier "s"; Identifier "t"] eq_refl)
             ltac:(discriminate)).
Defined.

(** ** Maps *)

Lemma get_set {V : Type} (k k' : string) (v : V) (m : list (string * V)) :
  JsMap.get k (JsMap.set k' v m)
  = if String.eqb k k' then Some v else JsMap.get k m.
Proof.
  induction m as [|[k0 v0] m IH]; simpl.
  - reflexivity.
  - destruct (String.eqb k' k0) eqn:E'; simpl.
    + apply String.eqb_eq in E'. subst k0.
      destruct (String.eqb k k'); reflexivity.
    + destruct (String.eqb k k0) eqn:E0.
      * apply String.eqb_eq in E0. subst k0.
        rewrite String.eqb_sym, E'. reflexivity.
      * exact IH.
Qed.

Lemma keys_set {V : Type} (k k' : string) (v : V) (m : list (string * V)) :
  In k (JsMap.keys (JsMap.set k' v m)) <-> k = k' \/ In k (JsMap.keys m).
Proof.
  unfold JsMap.keys. induction m as [|[k0 v0] m IH]; simpl.
  - intuition.
  - destruct (String.eqb k' k0) eqn:E; simpl.
    + apply String.eqb_eq in E. subst k0. intuition.
    + rewrite IH. intuition.
Qed.

Lemma get_none_iff {V : Type} (k : string) (m : list (string * V)) :
  JsMap.get k m = None <-> ~ In k (JsMap.keys m).
Proof.
  unfold JsMap.keys. induction m as [|[k0 v0] m IH]; simpl.
  - intuition.
  - destruct (String.eqb k k0) eqn:E.
    + apply String.eqb_eq in E. subst. split; [discriminate | intuition].
    + apply String.eqb_neq in E. rewrite IH. intuition.
Qed.

(** ** The traversal of [buildSymbolTable] *)

Lemma childNodes_size (n c : ASTNode) :
  In c (childNodes n) -> node_size c < node_size n.
Proof.
  destruct n; cbn [childNodes node_size]; intros Hin;
    repeat match goal with
           | o : option ASTNode |- _ => destruct o
           end;
    simpl in Hin;
    repeat match goal with
           | H : _ \/ _ |- _ => destruct H as [<-|H]
           | H : False |- _ => contradiction
           end;
    try lia;
    match goal with
    | H : In _ _ |- _ => pose proof (node_size_in _ _ H); lia
    end.
Qed.

Lemma allNodes_unfold (n : ASTNode) :
  allNodes n = n :: flat_map allNodes (childNodes n).
Proof.
  destruct n; cbn [allNodes childNodes flat_map];
    repeat match goal with
           | o : option ASTNode |- _ => destruct o
           end;
    cbn [flat_map]; rewrite ?app_nil_r; reflexivity.
Qed.

(** The three handlers of [visit], before the recursion. *)
Lemma visit_unfold (n : ASTNode) (st : BuildState) :
  visit n st
  = fold_left (fun s child => visit child s) (childNodes n)
      (match n with
       | ImportDeclaration specifiers source =>
           (fst st, trackImports source specifiers (snd st))
       | VariableDeclaration declarations =>
           (declareAll declarations (fst st), snd st)
       | ExportNamedDeclaration (Some (VariableDeclaration declarations)) =>
           (declareAll declarations (fst st), snd st)
       | _ => st
       end).
Proof.
  destruct n; try reflexivity.
  - destruct init; reflexivity.
  - destruct declaration as [d|]; [destruct d|]; reflexivity.
Qed.

Lemma trackImports_app (source : string) (specifiers : list ASTNode) :
  forall pending,
    trackImports source specifiers pending
    = pending ++ trackImports source specifiers [].
Proof.
  induction specifiers as [|spec rest IH]; intros pending.
  - simpl. now rewrite app_nil_r.
  - cbn [trackImports].
    destruct spec; try apply IH;
      (destruct (nameOf _) as [l|]; [|apply IH]);
      (destruct (truthy l); [|apply IH]);
      rewrite IH, (IH ([] ++ _)), app_assoc; reflexivity.
Qed.

Lemma declareAll_keys (declarations : list ASTNode) :
  forall symbols name,
    In name (JsMap.keys (declareAll declarations symbols))
    <-> In name (JsMap.keys symbols) \/ In name (declaratorNames declarations).
Proof.
  induction declarations as [|d rest IH]; intros symbols name.
  - simpl. intuition.
  - assert (Hskip : declareAll (d :: rest) symbols = declareAll rest symbols ->
                    declaratorNames (d :: rest) = declaratorNames rest ->
                    In name (JsMap.keys (declareAll (d :: rest) symbols))
                    <-> In name (JsMap.keys symbols)
                        \/ In name (declaratorNames (d :: rest))).
    { intros -> ->. apply IH. }
    destruct d; try (apply Hskip; reflexivity).
    destruct d; try (apply Hskip; reflexivity).
    destruct init as [init|]; [|apply Hskip; reflexivity].
    cbn [declareAll]. rewrite IH, keys_set.
    change (declaratorNames (VariableDeclarator (Identifier name0) (Some init) :: rest))
      with (name0 :: declaratorNames rest).
    simpl. intuition.
Qed.

Lemma declareAll_get_other (declarations : list ASTNode) :
  forall symbols name,
    ~ In name (declaratorNames declarations) ->
    JsMap.get name (declareAll declarations symbols) = JsMap.get name symbols.
Proof.
  induction declarations as [|d rest IH]; intros symbols name Hnot;
    [reflexivity|].
  assert (Hskip : declareAll (d :: rest) symbols = declareAll rest symbols ->
                  declaratorNames (d :: rest) = declaratorNames rest ->
                  JsMap.get name (declareAll (d :: rest) symbols)
                  = JsMap.get name symbols).
  { intros E1 E2. rewrite E1. apply IH. now rewrite <- E2. }
  destruct d; try (apply Hskip; reflexivity).
  destruct d; try (apply Hskip; reflexivity).
  destruct init as [init|]; [|apply Hskip; reflexivity].
  change (declaratorNames (VariableDeclarator (Identifier name0) (Some init) :: rest))
    with (name0 :: declaratorNames rest) in Hnot.
  cbn [declareAll]. rewrite IH by (intros H; apply Hnot; now right).
  rewrite get_set. destruct (String.eqb name name0) eqn:E; [|reflexivity].
  apply String.eqb_eq in E. subst. exfalso. apply Hnot. now left.
Qed.

Lemma flat_map_flat_map {A B C : Type} (f : A -> list B) (g : B -> list C)
  (l : list A) :
  flat_map g (flat_map f l) = flat_map (fun x => flat_map g (f x)) l.
Proof.
  induction l as [|x l IH]; [reflexivity|].
  simpl. now rewrite flat_map_app, IH.
Qed.

Lemma declaredNames_unfold (n : ASTNode) :
  declaredNames n = ownNames n ++ flat_map declaredNames (childNodes n).
Proof.
  unfold declaredNames at 1. rewrite allNodes_unfold. simpl.
  now rewrite flat_map_flat_map.
Qed.

Lemma pendingImportsOf_unfold (n : ASTNode) :
  pendingImportsOf n = ownImports n ++ flat_map pendingImportsOf (childNodes n).
Proof.
  unfold pendingImportsOf at 1. rewrite allNodes_unfold. simpl.
  now rewrite flat_map_flat_map.
Qed.

Lemma visit_effect_trans (a b c : BuildState)
  (n1 n2 : list string) (i1 i2 : list PendingImport) :
  visit_effect a b n1 i1 -> visit_effect b c n2 i2 ->
  visit_effect a c (n1 ++ n2) (i1 ++ i2).
Proof.
  intros (S1 & K1 & G1) (S2 & K2 & G2). split; [|split].
  - now rewrite S2, S1, app_assoc.
  - intros name. rewrite K2, K1, in_app_iff. intuition.
  - intros name Hnot. rewrite G2, G1; [reflexivity| |];
      intros H; apply Hnot; apply in_app_iff; auto.
Qed.

Lemma visit_effect_refl (a : BuildState) : visit_effect a a [] [].
Proof.
  split; [|split]; simpl.
  - now rewrite app_nil_r.
  - intros name. tauto.
  - reflexivity.
Qed.

Lemma handlers_effect (n : ASTNode) (st : BuildState) :
  visit_effect st
    (match n with
     | ImportDeclaration specifiers source =>
         (fst st, trackImports source specifiers (snd st))
     | VariableDeclaration declarations =>
         (declareAll declarations (fst st), snd st)
     | ExportNamedDeclaration (Some (VariableDeclaration declarations)) =>
         (declareAll declarations (fst st), snd st)
     | _ => st
     end)
    (ownNames n) (ownImports n).
Proof.
  assert (Hdecl : forall ds,
             visit_effect st (declareAll ds (fst st), snd st)
               (declaratorNames ds) []).
  { intros ds. split; [|split]; simpl.
    - now rewrite app_nil_r.
    - intros name. apply declareAll_keys.
    - intros name. apply declareAll_get_other. }
  destruct n; try apply visit_effect_refl.
  - apply Hdecl.
  - destruct declaration as [d|]; [destruct d|]; try apply visit_effect_refl.
    apply Hdecl.
  - split; [|split]; simpl.
    + apply trackImports_app.
    + intros name. tauto.
    + reflexivity.
Qed.

Lemma fold_visit_effect (l : list ASTNode) :
  (forall c, In c l ->
     forall st, visit_effect st (visit c st) (declaredNames c) (pendingImportsOf c)) ->
  forall st,
    visit_effect st (fold_left (fun s child => visit child s) l st)
      (flat_map declaredNames l) (flat_map pendingImportsOf l).
Proof.
  induction l as [|c l IH]; intros Hl st.
  - apply visit_effect_refl.
  - simpl. eapply visit_effect_trans.
    + apply Hl. now left.
    + apply IH. intros c' Hin. apply Hl. now right.
Qed.

Lemma visit_spec (n : ASTNode) :
  forall st, visit_effect st (visit n st) (declaredNames n) (pendingImportsOf n).
Proof.
  induction n as [n IH] using ASTNode_size_ind. intros st.
  rewrite visit_unfold, declaredNames_unfold, pendingImportsOf_unfold.
  eapply visit_effect_trans.
  - apply handlers_effect.
  - apply fold_visit_effect. intros c Hin. apply IH.
    now apply childNodes_size.
Qed.

Lemma visit_from_empty (ast : ASTNode) :
  snd (visit ast ([], [])) = pendingImportsOf ast /\
  (forall name, In name (JsMap.keys (fst (visit ast ([], []))))
                <-> In name (declaredNames ast)) /\
  (forall name, ~ In name (declaredNames ast) ->
                JsMap.get name (fst (visit ast ([], []))) = None).
Proof.
  destruct (visit_spec ast ([], [])) as (S & K & G). simpl in *.
  split; [exact S|]. split; [|exact G].
  intros name. rewrite K. tauto.
Qed.

(** ** The loop over the pending imports *)

Lemma markUnresolved_keys (pending : list PendingImport) :
  forall symbols name,
    In name (JsMap.keys (markUnresolved pending symbols))
    <-> In name (JsMap.keys symbols) \/ In name (map localName pending).
Proof.
  unfold markUnresolved.
  induction pending as [|p rest IH]; intros symbols name; simpl.
  - intuition.
  - rewrite IH, keys_set. intuition.
Qed.

Lemma markUnresolved_get_other (pending : list PendingImport) :
  forall symbols name,
    ~ In name (map localName pending) ->
    JsMap.get name (markUnresolved pending symbols) = JsMap.get name symbols.
Proof.
  unfold markUnresolved.
  induction pending as [|p rest IH]; intros symbols name Hnot; simpl;
    [reflexivity|].
  rewrite IH by (intros H; apply Hnot; now right).
  rewrite get_set. destruct (String.eqb name (localName p)) eqn:E;
    [|reflexivity].
  apply String.eqb_eq in E. exfalso. apply Hnot. now left.
Qed.

Lemma markUnresolved_get_import (pending : list PendingImport) :
  forall symbols name,
    In name (map localName pending) ->
    JsMap.get name (markUnresolved pending symbols) = Some VUnresolved.
Proof.
  unfold markUnresolved.
  induction pending as [|p rest IH]; intros symbols name Hin; simpl in *;
    [contradiction|].
  destruct (in_dec string_dec name (map localName rest)) as [Hrest|Hrest].
  - now apply IH.
  - destruct Hin as [<-|Hin]; [|contradiction].
    fold (markUnresolved rest (JsMap.set (localName p) VUnresolved symbols)).
    rewrite markUnresolved_get_other by assumption.
    rewrite get_set, String.eqb_refl. reflexivity.
Qed.

(** ** Building tables across files *)

Section ImportProperties.
Variable dirname : string -> string.
Variable resolve : string -> string -> string.
Variable parse : string -> option ASTNode.

Lemma resolvePending_not_chased (options : BuildSymbolTableOptions)
  (build : ASTNode -> string -> ImportCache -> outcome (SymbolTable * ImportCache))
  (pending : list PendingImport) :
  chasesImports options = false ->
  forall symbols cache,
    resolvePendingImports dirname resolve parse options build pending symbols cache
    = Done (markUnresolved pending symbols, cache).
Proof.
  unfold chasesImports. intros Hno.
  induction pending as [|p rest IH]; intros symbols cache; [reflexivity|].
  cbn [resolvePendingImports].
  destruct (currentFilePath options) as [path|]; [rewrite Hno|]; apply IH.
Qed.

Lemma buildSymbolTable_unchased (fuel : nat) (ast : ASTNode)
  (options : BuildSymbolTableOptions) (cache : ImportCache) :
  chasesImports options = false ->
  buildSymbolTable dirname resolve parse (S fuel) ast options cache
  = Done (unchasedTable ast, cache).
Proof.
  intros Hno. cbn [buildSymbolTable]. unfold unchasedTable.
  destruct (visit_from_empty ast) as (Hsnd & _).
  destruct (visit ast ([], [])) as [symbols pending]. simpl in *. subst pending.
  now apply resolvePending_not_chased.
Qed.

Lemma buildImport_done (fuel : nat) (reader : FileReader)
  (importAst : ASTNode) (filePath : string) (cache : ImportCache) :
  buildImportSymbolTable dirname resolve parse (S fuel) reader importAst filePath cache
  = Done (unchasedTable importAst, cache).
Proof.
  unfold buildImportSymbolTable. apply buildSymbolTable_unchased.
  unfold chasesImports. simpl. apply andb_false_r.
Qed.

(** [resolveImport], with the callback run on at least one unit of fuel. *)
Lemma resolveImport_done (fuel : nat) (reader : FileReader)
  (current importPath name : string) (cache : ImportCache) :
  resolveImport dirname resolve parse current importPath name
    (buildImportSymbolTable dirname resolve parse (S fuel) reader) reader cache
  = let path := locateImport dirname resolve reader current importPath in
    if negb (exists_ reader path) then Done (None, cache)
    else match JsMap.get path cache with
         | Some cached => Done (getExportedValue cached name, cache)
         | None =>
             match read reader path with
             | None => Done (None, cache)
             | Some content =>
                 match parse content with
                 | None => Done (None, cache)
                 | Some importedAst =>
                     Done (getExportedValue (unchasedTable importedAst) name,
                           JsMap.set path (unchasedTable importedAst) cache)
                 end
             end
         end.
Proof.
  unfold resolveImport. cbv zeta.
  destruct (negb _); [reflexivity|].
  destruct (JsMap.get _ cache); [reflexivity|].
  destruct (read reader _) as [content|]; [|reflexivity].
  destruct (parse content) as [importedAst|]; [|reflexivity].
  now rewrite buildImport_done.
Qed.

Lemma resolveImport_total (fuel : nat) (reader : FileReader)
  (current importPath name : string) (cache : ImportCache) :
  exists r cache',
    resolveImport dirname resolve parse current importPath name
      (buildImportSymbolTable dirname resolve parse (S fuel) reader) reader cache
    = Done (r, cache').
Proof.
  rewrite resolveImport_done. cbv zeta.
  destruct (negb _); [eauto|].
  destruct (JsMap.get _ cache); [eauto|].
  destruct (read reader _) as [content|]; [|eauto].
  destruct (parse content); eauto.
Qed.

Lemma resolvePending_total (fuel : nat) (options : BuildSymbolTableOptions)
  (pending : list PendingImport) :
  forall symbols cache,
  exists table cache',
    resolvePendingImports dirname resolve parse options
      (buildImportSymbolTable dirname resolve parse (S fuel) (fileReader options))
      pending symbols cache
    = Done (table, cache') /\
    forall name, In name (JsMap.keys table)
                 <-> In name (JsMap.keys symbols)
                     \/ In name (map localName pending).
Proof.
  induction pending as [|p rest IH]; intros symbols cache.
  - exists symbols, cache. split; [reflexivity|]. simpl. tauto.
  - cbn [resolvePendingImports].
    assert (Hset : forall v c,
              exists table cache',
                resolvePendingImports dirname resolve parse options
                  (buildImportSymbolTable dirname resolve parse (S fuel)
                     (fileReader options)) rest
                  (JsMap.set (localName p) v symbols) c = Done (table, cache') /\
                forall name, In name (JsMap.keys table)
                             <-> In name (JsMap.keys symbols)
                                 \/ In name (map localName (p :: rest))).
    { intros v c. destruct (IH (JsMap.set (localName p) v symbols) c)
        as (table & cache' & Heq & Hkeys).
      exists table, cache'. split; [exact Heq|].
      intros name. rewrite Hkeys, keys_set. simpl. intuition. }
    destruct (currentFilePath options) as [path|]; [|apply Hset].
    destruct (truthy path && _); [|apply Hset].
    destruct (resolveImport_total fuel (fileReader options) path
                (sourcePath p) (importedName p) cache) as (r & c & Hr).
    rewrite Hr. destruct r; apply Hset.
Qed.

Lemma buildSymbolTable_total (fuel : nat) (ast : ASTNode)
  (options : BuildSymbolTableOptions) (cache : ImportCache) :
  exists table cache',
    buildSymbolTable dirname resolve parse (S (S fuel)) ast options cache
    = Done (table, cache') /\
    forall name, In name (JsMap.keys table)
                 <-> In name (declaredNames ast)
                     \/ In name (map localName (pendingImportsOf ast)).
Proof.
  cbn [buildSymbolTable].
  destruct (visit_from_empty ast) as (Hsnd & Hkeys & _).
  destruct (visit ast ([], [])) as [symbols pending]. simpl in *. subst pending.
  destruct (resolvePending_total fuel options (pendingImportsOf ast) symbols cache)
    as (table & cache' & Heq & Ht).
  exists table, cache'. split; [exact Heq|].
  intros name. rewrite Ht, Hkeys. reflexivity.
Qed.

(** More fuel changes nothing: the recursion never goes deeper than the
    one call through the callback. *)
Lemma resolveImport_fuel (fuel : nat) (reader : FileReader)
  (current importPath name : string) (cache : ImportCache) :
  resolveImport dirname resolve parse current importPath name
    (buildImportSymbolTable dirname resolve parse (S fuel) reader) reader cache
  = resolveImport dirname resolve parse current importPath name
      (buildImportSymbolTable dirname resolve parse 1 reader) reader cache.
Proof. now rewrite !resolveImport_done. Qed.

Lemma resolvePending_fuel (fuel : nat) (options : BuildSymbolTableOptions)
  (pending : list PendingImport) :
  forall symbols cache,
    resolvePendingImports dirname resolve parse options
      (buildImportSymbolTable dirname resolve parse (S fuel) (fileReader options))
      pending symbols cache
    = resolvePendingImports dirname resolve parse options
        (buildImportSymbolTable dirname resolve parse 1 (fileReader options))
        pending symbols cache.
Proof.
  induction pending as [|p rest IH]; intros symbols cache; [reflexivity|].
  cbn [resolvePendingImports].
  destruct (currentFilePath options) as [path|]; [|apply IH].
  destruct (truthy path && _); [|apply IH].
  rewrite resolveImport_fuel.
  destruct (resolveImport _ _ _ _ _ _ _ _ _) as [[[v|] c]|];
    try apply IH; reflexivity.
Qed.

Lemma buildSymbolTable_fuel (fuel : nat) (ast : ASTNode)
  (options : BuildSymbolTableOptions) (cache : ImportCache) :
  buildSymbolTable dirname resolve parse (S (S fuel)) ast options cache
  = buildSymbolTable dirname resolve parse 2 ast options cache.
Proof.
  cbn [buildSymbolTable]. destruct (visit ast ([], [])) as [symbols pending].
  apply resolvePending_fuel.
Qed.

Lemma getExportedValue_named (symbols : SymbolTable) (name : string) :
  name <> "*" -> getExportedValue symbols name = JsMap.get name symbols.
Proof.
  intros Hne. unfold getExportedValue.
  destruct (String.eqb name "*") eqn:E.
  - apply String.eqb_eq in E. contradiction.
  - destruct (String.eqb name "default") eqn:E'; [|reflexivity].
    apply String.eqb_eq in E'. now subst.
Qed.

Lemma resolvePending_no_files (fuel : nat) (options : BuildSymbolTableOptions)
  (pending : list PendingImport) :
  (forall path, exists_ (fileReader options) path = false) ->
  forall symbols cache,
    resolvePendingImports dirname resolve parse options
      (buildImportSymbolTable dirname resolve parse (S fuel) (fileReader options))
      pending symbols cache
    = Done (markUnresolved pending symbols, cache).
Proof.
  intros Hnone.
  induction pending as [|p rest IH]; intros symbols cache; [reflexivity|].
  cbn [resolvePendingImports].
  destruct (currentFilePath options) as [path|]; [|apply IH].
  destruct (truthy path && _); [|apply IH].
  rewrite resolveImport_done. cbv zeta. rewrite Hnone. simpl. apply IH.
Qed.

Lemma declared_at_any_depth (ast : ASTNode) (declarations : list ASTNode)
  (name : string) (init : ASTNode) :
  In (VariableDeclaration declarations) (allNodes ast) ->
  In (VariableDeclarator (Identifier name) (Some init)) declarations ->
  In name (declaredNames ast).
Proof.
  intros Hnode Hdecl. unfold declaredNames. apply in_flat_map.
  exists (VariableDeclaration declarations). split; [exact Hnode|].
  simpl. unfold declaratorNames. apply in_flat_map.
  exists (VariableDeclarator (Identifier name) (Some init)).
  split; [exact Hdecl | now left].
Qed.

Lemma map_flat_map {A B C : Type} (f : B -> C) (g : A -> list B) (l : list A) :
  map f (flat_map g l) = flat_map (fun x => map f (g x)) l.
Proof.
  induction l as [|x l IH]; [reflexivity|]. simpl. now rewrite map_app, IH.
Qed.

Lemma trackImports_local_names (source : string) (specifiers : list ASTNode) :
  map localName (trackImports source specifiers [])
  = specifierLocalNames specifiers.
Proof.
  unfold specifierLocalNames.
  induction specifiers as [|spec rest IH]; [reflexivity|].
  cbn [trackImports flat_map].
  destruct spec as [ | | | | | | | | | | | | | | local imported | local | local | ];
    try exact IH;
    (destruct local as [ | name | | | | | | | | | | | | | | | | ];
     try exact IH; cbn [nameOf specifierLocalName];
     destruct (truthy name); [|exact IH];
     rewrite trackImports_app, map_app, IH; reflexivity).
Qed.

Lemma pending_local_names (ast : ASTNode) :
  map localName (pendingImportsOf ast) = importLocalNames ast.
Proof.
  unfold pendingImportsOf, importLocalNames. rewrite map_flat_map.
  apply flat_map_ext. intros node.
  destruct node; try reflexivity. apply trackImports_local_names.
Qed.

Lemma imported_at_any_depth (ast : ASTNode) (specifiers : list ASTNode)
  (source : string) (spec : ASTNode) (name : string) :
  In (ImportDeclaration specifiers source) (allNodes ast) ->
  In spec specifiers ->
  specifierLocalName spec = Some name ->
  In name (importLocalNames ast).
Proof.
  intros Hnode Hspec Hname. unfold importLocalNames. apply in_flat_map.
  exists (ImportDeclaration specifiers source). split; [exact Hnode|].
  unfold specifierLocalNames. apply in_flat_map.
  exists spec. split; [exact Hspec|]. rewrite Hname. now left.
Qed.

(** C4, amended.  [buildSymbolTable] enters a binding for every variable
    declarator with an identifier and an initialiser that belongs to a
    variable declaration found at any depth of the tree (top-level,
    export-wrapped, or nested in another construct such as a function
    body), and for every import specifier (named, default or namespace)
    with a non-empty local name that belongs to an import declaration
    found at any depth; the table has no other key. *)
Theorem C4_bindings_from_declarations_at_any_depth :
  forall (fuel : nat) (ast : ASTNode) (options : BuildSymbolTableOptions)
         (cache : ImportCache),
  exists table cache',
    buildSymbolTable dirname resolve parse (S (S fuel)) ast options cache
    = Done (table, cache') /\
    (forall name, In name (JsMap.keys table)
                  <-> In name (declaredNames ast)
                      \/ In name (map localName (pendingImportsOf ast))) /\
    (forall declarations name init,
        In (VariableDeclaration declarations) (allNodes ast) ->
        In (VariableDeclarator (Identifier name) (Some init)) declarations ->
        In name (JsMap.keys table)) /\
    (forall name, In name (JsMap.keys table)
                  <-> In name (declaredNames ast)
                      \/ In name (importLocalNames ast)) /\
    (forall specifiers source spec name,
        In (ImportDeclaration specifiers source) (allNodes ast) ->
        In spec specifiers ->
        specifierLocalName spec = Some name ->
        In name (JsMap.keys table)).
Proof.
  intros fuel ast options cache.
  destruct (buildSymbolTable_total fuel ast options cache)
    as (table & cache' & Heq & Hkeys).
  exists table, cache'. split; [exact Heq|]. split; [exact Hkeys|].
  split; [|split].
  - intros declarations name init Hnode Hdecl. apply Hkeys. left.
    eapply declared_at_any_depth; eassumption.
  - intros name. rewrite Hkeys, pending_local_names. reflexivity.
  - intros specifiers source spec name Hnode Hspec Hname. apply Hkeys. right.
    rewrite pending_local_names.
    eapply imported_at_any_depth; eassumption.
Qed.

(** C7.  Import resolution is exactly one level deep.  The callback that
    [buildSymbolTable] hands to [resolveImport] is the builder with
    [followImports = false]; run on an imported file it returns the
    file's table without touching the cache, and in that table every
    import of the imported file is bound to Unresolved.  Hence two units
    of fuel are enough for [buildSymbolTable] to return on every tree,
    every file reader and every cache (cyclic import graphs included, no
    visited set involved), and more fuel changes nothing. *)
Theorem C7_import_resolution_one_level_deep :
  forall (fuel : nat),
    (forall ast options cache,
        buildSymbolTable dirname resolve parse (S fuel) ast options cache
        = resolvePendingImports dirname resolve parse options
            (fun importAst filePath =>
               buildSymbolTable dirname resolve parse fuel importAst
                 (mkOptions (Some filePath) (Some false) (fileReader options)))
            (snd (visit ast ([], []))) (fst (visit ast ([], []))) cache) /\
    (forall reader importAst filePath cache,
        buildSymbolTable dirname resolve parse (S fuel) importAst
          (mkOptions (Some filePath) (Some false) reader) cache
        = Done (unchasedTable importAst, cache) /\
        forall p, In p (pendingImportsOf importAst) ->
                  JsMap.get (localName p) (unchasedTable importAst)
                  = Some VUnresolved) /\
    (forall ast options cache,
        exists table cache',
          buildSymbolTable dirname resolve parse (S (S fuel)) ast options cache
          = Done (table, cache')) /\
    (forall ast options cache,
        buildSymbolTable dirname resolve parse (S (S fuel)) ast options cache
        = buildSymbolTable dirname resolve parse 2 ast options cache).
Proof.
  intros fuel. split; [|split; [|split]].
  - intros ast options cache. cbn [buildSymbolTable].
    now destruct (visit ast ([], [])).
  - intros reader importAst filePath cache. split.
    + apply (buildImport_done fuel reader importAst filePath cache).
    + intros p Hin. unfold unchasedTable. apply markUnresolved_get_import.
      now apply in_map.
  - intros ast options cache.
    destruct (buildSymbolTable_total fuel ast options cache)
      as (table & cache' & Heq & _). eauto.
  - intros ast options cache. apply buildSymbolTable_fuel.
Qed.
Lemma resolvePending_step_not_found (options : BuildSymbolTableOptions)
  (build : ASTNode -> string -> ImportCache -> outcome (SymbolTable * ImportCache))
  (current : string) (p : PendingImport) (rest : list PendingImport)
  (symbols : SymbolTable) (cache cache' : ImportCache) (r : option ResolvedValue) :
  currentFilePath options = Some current ->
  chasesImports options = true ->
  resolveImport dirname resolve parse current (sourcePath p) (importedName p)
    build (fileReader options) cache = Done (r, cache') ->
  r = None \/ r = Some VUnresolved ->
  resolvePendingImports dirname resolve parse options build (p :: rest) symbols cache
  = resolvePendingImports dirname resolve parse options build rest
      (JsMap.set (localName p) VUnresolved symbols) cache'.
Proof.
  intros Hpath Hchase Hres Hr. cbn [resolvePendingImports].
  unfold chasesImports in Hchase. rewrite Hpath in Hchase |- *.
  rewrite Hchase, Hres. destruct Hr as [->| ->]; reflexivity.
Qed.

(** C8.  [resolveImport] is total toward its caller: with the callback of
    [buildSymbolTable] it always returns, and a missing target file, a
    failing read, a failing parse or a missing named export give the
    "not found" result ([undefined], here [None]) rather than an
    exception.  [buildSymbolTable] maps that result to an Unresolved
    binding for the local name; in particular, when no file can be
    found, the table is the one obtained without chasing imports, where
    every import is Unresolved. *)
Theorem C8_resolveImport_never_raises :
  forall (fuel : nat) (options : BuildSymbolTableOptions)
         (current importPath name : string) (cache : ImportCache),
    let reader := fileReader options in
    let build := buildImportSymbolTable dirname resolve parse (S fuel) reader in
    let path := locateImport dirname resolve reader current importPath in
    let result :=
      resolveImport dirname resolve parse current importPath name build reader cache in
    (exists r cache', result = Done (r, cache')) /\
    (exists_ reader path = false -> result = Done (None, cache)) /\
    (JsMap.get path cache = None -> read reader path = None ->
     result = Done (None, cache)) /\
    (forall content,
        JsMap.get path cache = None -> read reader path = Some content ->
        parse content = None -> result = Done (None, cache)) /\
    (forall r cache',
        result = Done (r, cache') -> name <> "*" ->
        (forall table, JsMap.get path cache' = Some table ->
                       JsMap.get name table = None) ->
        r = None) /\
    (forall p rest symbols cache',
        currentFilePath options = Some current ->
        chasesImports options = true ->
        sourcePath p = importPath -> importedName p = name ->
        result = Done (None, cache') ->
        resolvePendingImports dirname resolve parse options build
          (p :: rest) symbols cache
        = resolvePendingImports dirname resolve parse options build rest
            (JsMap.set (localName p) VUnresolved symbols) cache') /\
    ((forall q, exists_ reader q = false) ->
     forall ast,
       buildSymbolTable dirname resolve parse (S (S fuel)) ast options cache
       = Done (unchasedTable ast, cache)).
Proof.
  intros fuel options current importPath name cache reader build path result.
  assert (Hdone : result
                  = if negb (exists_ reader path) then Done (None, cache)
                    else match JsMap.get path cache with
                         | Some cached => Done (getExportedValue cached name, cache)
                         | None =>
                             match read reader path with
                             | None => Done (None, cache)
                             | Some content =>
                                 match parse content with
                                 | None => Done (None, cache)
                                 | Some importedAst =>
                                     Done
                                       (getExportedValue
                                          (unchasedTable importedAst) name,
                                        JsMap.set path
                                          (unchasedTable importedAst) cache)
                                 end
                             end
                         end)
    by apply resolveImport_done.
  split; [apply resolveImport_total|].
  split; [intros Hex; rewrite Hdone, Hex; reflexivity|].
  split.
  { intros Hc Hr. rewrite Hdone, Hc, Hr. now destruct (negb _). }
  split.
  { intros content Hc Hr Hp. rewrite Hdone, Hc, Hr, Hp. now destruct (negb _). }
  split.
  { intros r cache' Hres Hname Htable. rewrite Hdone in Hres.
    destruct (negb _); [congruence|].
    destruct (JsMap.get path cache) as [cached|] eqn:Hc.
    - injection Hres as <- <-. rewrite getExportedValue_named by assumption.
      now apply Htable.
    - destruct (read reader path) as [content|]; [|congruence].
      destruct (parse content) as [importedAst|]; [|congruence].
      injection Hres as <- <-. rewrite getExportedValue_named by assumption.
      apply Htable. now rewrite get_set, String.eqb_refl. }
  split.
  { intros p rest symbols cache' Hcur Hchase <- <- Hres.
    eapply resolvePending_step_not_found; eauto. }
  intros Hnone ast. cbn [buildSymbolTable]. unfold unchasedTable.
  destruct (visit_from_empty ast) as (Hsnd & _).
  destruct (visit ast ([], [])) as [symbols pending]. simpl in *. subst pending.
  now apply resolvePending_no_files.
Qed.

Lemma unchasedTable_default (importedAst : ASTNode) :
  ~ In "default" (declaredNames importedAst) ->
  JsMap.get "default" (unchasedTable importedAst) = None \/
  JsMap.get "default" (unchasedTable importedAst) = Some VUnresolved.
Proof.
  intros Hnot. unfold unchasedTable.
  destruct (in_dec string_dec "default"
              (map localName (pendingImportsOf importedAst))) as [Hin|Hout].
  - right. now apply markUnresolved_get_import.
  - left. rewrite markUnresolved_get_other by assumption.
    now apply visit_from_empty.
Qed.

(** C9.  [buildSymbolTable] never creates a binding from an
    export-default declaration: visiting one only visits what it wraps.
    So the table of an imported file has a resolved value under
    ["default"] only if the file declares a variable literally named
    ["default"]; otherwise resolving a default import (requested export
    name ["default"]) from that file finds nothing or Unresolved, and the
    local name is bound to Unresolved. *)
Theorem C9_default_import_is_unresolved :
  forall (fuel : nat) (options : BuildSymbolTableOptions)
         (current : string) (p : PendingImport) (cache : ImportCache)
         (content : string) (importedAst : ASTNode),
    let reader := fileReader options in
    let build := buildImportSymbolTable dirname resolve parse (S fuel) reader in
    let path := locateImport dirname resolve reader current (sourcePath p) in
    importedName p = "default" ->
    exists_ reader path = true ->
    JsMap.get path cache = None ->
    read reader path = Some content ->
    parse content = Some importedAst ->
    ~ In "default" (declaredNames importedAst) ->
    (forall declaration st,
        visit (OtherNode "ExportDefaultDeclaration" [declaration]) st
        = visit declaration st) /\
    (exists r,
        resolveImport dirname resolve parse current (sourcePath p) "default"
          build reader cache
        = Done (r, JsMap.set path (unchasedTable importedAst) cache) /\
        (r = None \/ r = Some VUnresolved)) /\
    (currentFilePath options = Some current ->
     chasesImports options = true ->
     forall rest symbols,
       resolvePendingImports dirname resolve parse options build
         (p :: rest) symbols cache
       = resolvePendingImports dirname resolve parse options build rest
           (JsMap.set (localName p) VUnresolved symbols)
           (JsMap.set path (unchasedTable importedAst) cache)).
Proof.
  intros fuel options current p cache content importedAst reader build path
         Hname Hex Hc Hr Hp Hnot.
  assert (Hres : resolveImport dirname resolve parse current (sourcePath p) "default"
                   build reader cache
                 = Done (JsMap.get "default" (unchasedTable importedAst),
                         JsMap.set path (unchasedTable importedAst) cache)).
  { subst build. rewrite resolveImport_done. cbv zeta. fold path.
    rewrite Hex, Hc, Hr, Hp. reflexivity. }
  split; [reflexivity|]. split.
  - eexists. split; [exact Hres|]. now apply unchasedTable_default.
  - intros Hcur Hchase rest symbols.
    apply (resolvePending_step_not_found options build current p rest symbols
             cache (JsMap.set path (unchasedTable importedAst) cache)
             (JsMap.get "default" (unchasedTable importedAst)) Hcur Hchase).
    + rewrite Hname. exact Hres.
    + now apply unchasedTable_default.
Qed.
End ImportProperties.

(** ** The builder on sample files *)

(** C4, as stated, fails: a variable declaration nested in a function
    body does create a binding.  For [function f() { const x = 'a'; }]
    the table binds [x] to the String ["a"]. *)
Lemma C4_counterexample_nested_declaration :
  buildSymbolTable sampleDirname sampleResolve sampleParse 2
    nestedDeclarationAst (sampleOptions "/project/component.tsx") []
  = Done ([("x", VString "a")], []) /\
  childNodes nestedDeclarationAst
  = [OtherNode "Program"
       [OtherNode "FunctionDeclaration"
          [Identifier "f";
           OtherNode "BlockStatement" [constDeclaration "x" (StringLiteral "a")]]]].
Proof. split; reflexivity. Qed.

Example cyclic_imports_terminate :
  buildSymbolTable sampleDirname sampleResolve sampleParse 2
    cycleAAst (sampleOptions "/project/a.ts") []
  = Done ([("a", VString "A"); ("b", VString "B")],
          [("/project/b.ts", [("b", VString "B"); ("a", VUnresolved)])]).
Proof. reflexivity. Qed.

Example one_unit_of_fuel_is_not_enough :
  buildSymbolTable sampleDirname sampleResolve sampleParse 1
    cycleAAst (sampleOptions "/project/a.ts") []
  = OutOfFuel.
Proof. reflexivity. Qed.

Example missing_module_is_unresolved :
  buildSymbolTable sampleDirname sampleResolve sampleParse 2
    (program [namedImport "missing" "./nonexistent"])
    (sampleOptions "/project/component.tsx") []
  = Done ([("missing", VUnresolved)], []).
Proof. reflexivity. Qed.

Example broken_module_is_unresolved :
  buildSymbolTable sampleDirname sampleResolve sampleParse 2
    (program [namedImport "x" "./broken"])
    (sampleOptions "/project/component.tsx") []
  = Done ([("x", VUnresolved)], []).
Proof. reflexivity. Qed.

Example default_import_is_unresolved :
  buildSymbolTable sampleDirname sampleResolve sampleParse 2
    defaultImportAst (sampleOptions "/project/component.tsx") []
  = Done ([("tokens", VUnresolved)], [("/project/tokens.ts", [])]).
Proof. reflexivity. Qed.

Lemma C8_witness_parse_failure :
  let options := sampleOptions "/project/component.tsx" in
  let build :=
    buildImportSymbolTable sampleDirname sampleResolve sampleParse 1
      (fileReader options) in
  JsMap.get "/project/broken.ts" [] = @None SymbolTable /\
  read (fileReader options) "/project/broken.ts" = Some brokenSource /\
  sampleParse brokenSource = None /\
  resolveImport sampleDirname sampleResolve sampleParse
    "/project/component.tsx" "./broken" "x" build (fileReader options) []
  = Done (None, []).
Proof.
  intros options build.
  split; [reflexivity|]. split; [reflexivity|]. split; [reflexivity|].
  exact (proj1 (proj2 (proj2 (proj2
           (C8_resolveImport_never_raises sampleDirname sampleResolve sampleParse
              0 options "/project/component.tsx" "./broken" "x" []))))
           brokenSource eq_refl eq_refl eq_refl).
Defined.

Lemma C9_witness_default_import :
  let options := sampleOptions "/project/component.tsx" in
  let p := mkPending "tokens" "default" "./tokens" in
  let build :=
    buildImportSymbolTable sampleDirname sampleResolve sampleParse 1
      (fileReader options) in
  (importedName p = "default" /\
   exists_ (fileReader options) "/project/tokens.ts" = true /\
   JsMap.get "/project/tokens.ts" [] = @None SymbolTable /\
   read (fileReader options) "/project/tokens.ts" = Some defaultExportSource /\
   sampleParse defaultExportSource = Some defaultExportAst /\
   ~ In "default" (declaredNames defaultExportAst)) /\
  forall rest symbols,
    resolvePendingImports sampleDirname sampleResolve sampleParse options build
      (p :: rest) symbols []
    = resolvePendingImports sampleDirname sampleResolve sampleParse options build
        rest (JsMap.set "tokens" VUnresolved symbols)
        [("/project/tokens.ts", unchasedTable defaultExportAst)].
Proof.
  intros options p build. split.
  - repeat split. exact (fun H : In "default" (declaredNames defaultExportAst) => H).
  - exact (proj2 (proj2
             (C9_default_import_is_unresolved sampleDirname sampleResolve sampleParse
                0 options "/project/component.tsx" p []
                defaultExportSource defaultExportAst
                eq_refl eq_refl eq_refl eq_refl eq_refl
                (fun H : In "default" (declaredNames defaultExportAst) => H)))
             eq_refl eq_refl).
Defined.

(** * Further properties of the resolver *)

(** ** Rendering and static access *)

Lemma concat_dot_cons (x : string) (xs : list string) :
  String.concat "." (x :: xs)
  = x +++ String.concat "" (map (fun n => "." +++ n) xs).
Proof.
  revert x. induction xs as [|y ys IH]; intros x.
  - simpl. now rewrite append_nil_r.
  - change (String.concat "." (x :: y :: ys))
      with (x +++ "." +++ String.concat "." (y :: ys)).
    rewrite IH. cbn [map]. rewrite concat_empty_cons.
    now rewrite !append_assoc.
Qed.

Lemma staticChain_snoc (root : ASTNode) (names : list string) (name : string) :
  staticChain root (names ++ [name])
  = MemberExpression (staticChain root names) (Identifier name) false.
Proof. unfold staticChain. now rewrite fold_left_app. Qed.

Lemma stringify_staticChain (root : ASTNode) (names : list string) :
  stringifyExpr (staticChain root names)
  = stringifyExpr root +++ String.concat "" (map (fun n => "." +++ n) names).
Proof.
  induction names as [|name names IH] using rev_ind.
  - simpl. now rewrite append_nil_r.
  - rewrite staticChain_snoc. cbn [stringifyExpr]. rewrite IH.
    rewrite map_app, concat_empty_app. cbn [map].
    rewrite concat_empty_cons. cbn [String.concat].
    now rewrite append_nil_r, append_assoc.
Qed.

(** X1.  The rendering of a chain of static accesses rooted at a name is
    the dotted path: the names joined by ["."]. *)
Theorem X1_stringifyExpr_renders_dotted_paths :
  forall (root : string) (names : list string),
    stringifyExpr (staticChain (Identifier root) names)
    = String.concat "." (root :: names).
Proof.
  intros root names. now rewrite stringify_staticChain, concat_dot_cons.
Qed.

Lemma lookupPath_snoc (start : option ResolvedValue) (names : list string)
  (name : string) :
  lookupPath start (names ++ [name])
  = match lookupPath start names with
    | Some (VObject properties) => JsMap.get name properties
    | _ => None
    end.
Proof. unfold lookupPath. now rewrite fold_left_app. Qed.

Lemma baseValue_staticChain (symbols : SymbolTable) (root : string)
  (names : list string) :
  baseValue symbols (staticChain (Identifier root) names)
  = lookupPath (JsMap.get root symbols) names.
Proof.
  induction names as [|name names IH] using rev_ind; [reflexivity|].
  rewrite staticChain_snoc, lookupPath_snoc, <- IH.
  unfold baseValue at 1. cbn [resolveMemberExpressionToValue].
  unfold baseValue. reflexivity.
Qed.

Lemma static_access_step (symbols : SymbolTable) (object : ASTNode)
  (name : string) :
  resolveExpression (MemberExpression object (Identifier name) false) symbols
  = match baseValue symbols object with
    | Some (VObject properties) =>
        match JsMap.get name properties with
        | Some (VString value) => mkResult value true []
        | _ => unresolvedAs (MemberExpression object (Identifier name) false)
        end
    | _ => unresolvedAs (MemberExpression object (Identifier name) false)
    end.
Proof.
  cbn [resolveExpression]. unfold resolveMemberExpression, baseValue.
  destruct object; try reflexivity.
  destruct (resolveMemberExpressionToValue _ symbols) as [[s|ps|]|];
    reflexivity.
Qed.

(** X2.  A chain of static accesses [root.n1. ... .nk] (k >= 1) resolves
    by following the names through the nested objects bound to [root]:
    it is fully resolved, with the String found, exactly when the path
    ends on a String; in every other case (missing root or key, an
    Unresolved or String value on the way, an Object at the end) it is
    unresolved with the dotted path as its one fragment. *)
Theorem X2_static_chain_follows_the_path :
  forall (symbols : SymbolTable) (root : string) (names : list string),
    names <> [] ->
    resolveExpression (staticChain (Identifier root) names) symbols
    = match lookupPath (JsMap.get root symbols) names with
      | Some (VString value) => mkResult value true []
      | _ => mkResult "" false [String.concat "." (root :: names)]
      end.
Proof.
  intros symbols root names Hne.
  destruct (exists_last Hne) as (front & name & ->).
  rewrite staticChain_snoc, static_access_step, lookupPath_snoc.
  rewrite baseValue_staticChain. unfold unresolvedAs.
  rewrite <- staticChain_snoc, stringify_staticChain, <- concat_dot_cons.
  destruct (lookupPath (JsMap.get root symbols) front) as [[s|ps|]|];
    reflexivity.
Qed.

Lemma X2_witness_focus_ring :
  let effects := VObject [("focusRing", VString "focus:ring-2")] in
  let symbols := [("tokens", VObject [("effects", effects)])] in
  resolveExpression
    (staticChain (Identifier "tokens") ["effects"; "focusRing"]) symbols
  = mkResult "focus:ring-2" true [] /\
  resolveExpression
    (staticChain (Identifier "tokens") ["effects"; "focusRing"; "size"]) symbols
  = mkResult "" false ["tokens.effects.focusRing.size"].
Proof.
  intros effects symbols. split.
  - exact (X2_static_chain_follows_the_path symbols "tokens"
             ["effects"; "focusRing"] ltac:(discriminate)).
  - exact (X2_static_chain_follows_the_path symbols "tokens"
             ["effects"; "focusRing"; "size"] ltac:(discriminate)).
Defined.

(** ** Calls and conditionals *)

Lemma passthrough_call (symbols : SymbolTable) (receiver : ASTNode)
  (c : MethodCall) :
  In (method c) STRING_PASSTHROUGH_METHODS ->
  resolveExpression
    (CallExpression
       (MemberExpression receiver (Identifier (method c)) (methodComputed c))
       (methodArguments c)) symbols
  = resolveExpression receiver symbols.
Proof.
  intros Hin. cbn [resolveExpression].
  assert (Ht : truthy (method c) = true).
  { simpl in Hin.
    repeat (destruct Hin as [<-|Hin]; [reflexivity|]). contradiction. }
  assert (He : existsb (String.eqb (method c)) STRING_PASSTHROUGH_METHODS = true).
  { apply existsb_exists. exists (method c). split; [exact Hin|].
    apply String.eqb_refl. }
  now rewrite Ht, He.
Qed.

(** X3.  A tower of calls to allow-listed string methods, whatever their
    arguments, resolves exactly as its receiver does: the calls and
    their arguments are never looked at. *)
Theorem X3_passthrough_calls_resolve_as_receiver :
  forall (symbols : SymbolTable) (receiver : ASTNode) (calls : list MethodCall),
    Forall (fun c => In (method c) STRING_PASSTHROUGH_METHODS) calls ->
    resolveExpression (callTower receiver calls) symbols
    = resolveExpression receiver symbols.
Proof.
  intros symbols receiver calls. revert receiver. unfold callTower.
  induction calls as [|c calls IH]; intros receiver Hall; [reflexivity|].
  inversion Hall as [|c' calls' Hc Hrest]; subst.
  cbn [fold_left]. rewrite (IH _ Hrest). now apply passthrough_call.
Qed.

Lemma X3_witness_trim_replace :
  let symbols := [("cls", VString "px-4 hover:bg-blue-500")] in
  let calls :=
    [mkCall "trim" false [];
     mkCall "replace" false [StringLiteral "px-4"; Identifier "padding"]] in
  resolveExpression (callTower (Identifier "cls") calls) symbols
  = mkResult "px-4 hover:bg-blue-500" true [].
Proof.
  intros symbols calls.
  refine (X3_passthrough_calls_resolve_as_receiver symbols (Identifier "cls") calls _).
  repeat constructor; simpl; tauto.
Defined.

Lemma truthy_concat_space (x : string) (xs : list string) :
  truthy x = true -> truthy (String.concat " " (x :: xs)) = true.
Proof.
  destruct x as [|c x]; [discriminate|]. intros _.
  destruct xs; reflexivity.
Qed.

Lemma union_of_texts (a : string) (l : list string) :
  String.concat " " (filter truthy [a; String.concat " " (filter truthy l)])
  = String.concat " " (filter truthy (a :: l)).
Proof.
  cbn [filter]. destruct (filter truthy l) as [|x xs] eqn:E.
  - cbn [String.concat]. change (truthy "") with false.
    destruct (truthy a); reflexivity.
  - assert (Hx : truthy x = true).
    { assert (Hin : In x (filter truthy l)) by (rewrite E; now left).
      apply filter_In in Hin. tauto. }
    rewrite (truthy_concat_space x xs Hx).
    destruct (truthy a); reflexivity.
Qed.

(** X4.  Nested conditionals resolve to the union of all their branches:
    for [t1 ? b1 : (t2 ? b2 : ( ... : last))] the text is the
    space-joined texts of the branches, empty texts left out (so no
    stray separator), the verdict is the conjunction of the branches'
    verdicts, and the unresolved parts are those of the branches in
    order.  The tests play no part. *)
Theorem X4_nested_conditionals_union_all_branches :
  forall (symbols : SymbolTable) (branches : list (ASTNode * ASTNode))
         (last : ASTNode),
    let results :=
      map (fun e => resolveExpression e symbols) (map snd branches ++ [last]) in
    resolveExpression (conditionalChain branches last) symbols
    = mkResult (String.concat " " (filter truthy (map resolvedValue results)))
        (forallb isFullyResolved results)
        (flat_map unresolvedParts results).
Proof.
  intros symbols branches last.
  induction branches as [|[test branch] rest IH]; cbv zeta in *.
  - cbn [conditionalChain map app filter forallb flat_map].
    destruct (resolveExpression last symbols) as [text full parts].
    cbn [resolvedValue isFullyResolved unresolvedParts].
    rewrite andb_true_r, app_nil_r.
    destruct (truthy text) eqn:E; [reflexivity|].
    destruct text; [reflexivity | discriminate].
  - cbn [conditionalChain resolveExpression]. rewrite IH.
    cbn [resolvedValue isFullyResolved unresolvedParts map app snd
         forallb flat_map].
    now rewrite union_of_texts.
Qed.

(** * Further properties of the table builder *)

(** ** Template initialisers agree with inline resolution *)

Lemma extractTemplateLoop_false (symbols : SymbolTable) (es : list ASTNode) :
  forall qs parts, snd (extractTemplateLoop symbols es qs parts false) = false.
Proof.
  induction es as [|e es IH]; intros qs parts; [reflexivity|].
  destruct qs as [|q qs]; [reflexivity|]. cbn [extractTemplateLoop].
  destruct (isFullyResolved (resolveExpression e symbols)); apply IH.
Qed.

Lemma resolveTemplateLoop_false (resolve : ASTNode -> ResolutionResult)
  (es : list ASTNode) :
  forall qs parts unresolved,
    isFullyResolved (resolveTemplateLoop resolve es qs parts unresolved false)
    = false.
Proof.
  induction es as [|e es IH]; intros qs parts unresolved; [reflexivity|].
  destruct qs as [|q qs]; [reflexivity|]. cbn [resolveTemplateLoop].
  destruct (isFullyResolved (resolve e)); apply IH.
Qed.

Lemma template_loops_agree (symbols : SymbolTable) (es : list ASTNode) :
  forall qs parts unresolved,
    let extracted := extractTemplateLoop symbols es qs parts true in
    let r := resolveTemplateLoop (fun e => resolveExpression e symbols)
               es qs parts unresolved true in
    snd extracted = isFullyResolved r /\
    (snd extracted = true -> String.concat "" (fst extracted) = resolvedValue r).
Proof.
  induction es as [|e es IH]; intros qs parts unresolved; cbv zeta.
  - split; reflexivity.
  - destruct qs as [|q qs]; [split; reflexivity|].
    cbn [extractTemplateLoop resolveTemplateLoop].
    destruct (isFullyResolved (resolveExpression e symbols)).
    + apply IH.
    + rewrite extractTemplateLoop_false, resolveTemplateLoop_false.
      split; [reflexivity | discriminate].
Qed.

(** X5.  A binding initialised by a string template holds exactly what
    resolving the template as an expression gives: the String of the
    resolved text when the template is fully resolved, Unresolved
    otherwise.  So a reference to a name bound to a fully resolved
    template resolves as the template itself would. *)
Theorem X5_template_binding_agrees_with_inline_resolution :
  forall (symbols : SymbolTable) (quasis : list string)
         (expressions : list ASTNode) (name : string),
    let template := TemplateLiteral quasis expressions in
    let r := resolveExpression template symbols in
    extractValue template symbols
    = (if isFullyResolved r then VString (resolvedValue r) else VUnresolved) /\
    resolveExpression (Identifier name)
      (JsMap.set name (extractValue template symbols) symbols)
    = (if isFullyResolved r then mkResult (resolvedValue r) true []
       else mkResult "" false [name]).
Proof.
  intros symbols quasis expressions name template r.
  assert (Hx : extractValue template symbols
               = if isFullyResolved r then VString (resolvedValue r)
                 else VUnresolved).
  { subst r template. cbn [extractValue resolveExpression].
    destruct expressions as [|e es]; [reflexivity|].
    destruct (template_loops_agree symbols (e :: es) quasis [] [])
      as [Hflag Htext].
    destruct (extractTemplateLoop symbols (e :: es) quasis [] true)
      as [parts allResolved].
    simpl fst in Htext. simpl snd in Hflag, Htext. rewrite <- Hflag.
    destruct allResolved; [|reflexivity]. now rewrite (Htext eq_refl). }
  split; [exact Hx|].
  cbn [resolveExpression]. rewrite get_set, String.eqb_refl, Hx.
  destruct (isFullyResolved r); reflexivity.
Qed.

(** ** Object literals *)

Lemma NoDup_keys_set {V : Type} (k : string) (v : V) (m : list (string * V)) :
  NoDup (JsMap.keys m) -> NoDup (JsMap.keys (JsMap.set k v m)).
Proof.
  unfold JsMap.keys. induction m as [|[k0 v0] m IH]; intros Hnd; simpl.
  - constructor; [intros [] | constructor].
  - inversion Hnd as [|x l Hnotin Hrest]; subst.
    destruct (String.eqb k k0) eqn:E; simpl.
    + now constructor.
    + constructor; [|now apply IH].
      intros Hin. apply (keys_set k0 k v m) in Hin.
      destruct Hin as [->|Hin]; [|contradiction].
      now rewrite String.eqb_refl in E.
Qed.

Lemma extractProperties_lookup (extract : ASTNode -> ResolvedValue)
  (props : list ASTNode) :
  forall properties k,
    JsMap.get k (extractProperties extract props properties)
    = if truthy k
      then match lastValueFor k props with
           | Some value => Some (extract value)
           | None => JsMap.get k properties
           end
      else JsMap.get k properties.
Proof.
  induction props as [|prop rest IH]; intros properties k.
  - simpl. now destruct (truthy k).
  - assert (Hskip :
      extractProperties extract (prop :: rest) properties
      = extractProperties extract rest properties ->
      (truthy k = true ->
       lastValueFor k (prop :: rest) = lastValueFor k rest) ->
      JsMap.get k (extractProperties extract (prop :: rest) properties)
      = if truthy k
        then match lastValueFor k (prop :: rest) with
             | Some value => Some (extract value)
             | None => JsMap.get k properties
             end
        else JsMap.get k properties).
    { intros E1 E2. rewrite E1, IH. destruct (truthy k); [|reflexivity].
      now rewrite E2. }
    destruct prop as [ | | | | | | | | | key value | | | | | | | | ];
      try (apply Hskip; [reflexivity | intros _; cbn [lastValueFor];
                         now destruct (lastValueFor k rest)]).
    cbn [extractProperties lastValueFor]. fold (keyNameOf key).
    destruct (keyNameOf key) as [k'|] eqn:Hkey.
    + destruct (truthy k') eqn:Hk'.
      * rewrite IH, get_set. destruct (truthy k) eqn:Hk; [|
          destruct (String.eqb k k') eqn:E; [|reflexivity];
          apply String.eqb_eq in E; subst; congruence ].
        destruct (lastValueFor k rest); [reflexivity|].
        now destruct (String.eqb k k').
      * rewrite IH. destruct (truthy k) eqn:Hk; [|reflexivity].
        destruct (lastValueFor k rest); [reflexivity|].
        destruct (String.eqb k k') eqn:E; [|reflexivity].
        apply String.eqb_eq in E. subst. congruence.
    + rewrite IH. destruct (truthy k); [|reflexivity].
      now destruct (lastValueFor k rest).
Qed.

Lemma extractProperties_NoDup (extract : ASTNode -> ResolvedValue)
  (props : list ASTNode) :
  forall properties,
    NoDup (JsMap.keys properties) ->
    NoDup (JsMap.keys (extractProperties extract props properties)).
Proof.
  induction props as [|prop rest IH]; intros properties Hnd; [exact Hnd|].
  destruct prop; cbn [extractProperties]; try now apply IH.
  destruct prop1; try now apply IH.
  - destruct (truthy value); apply IH; [now apply NoDup_keys_set | exact Hnd].
  - destruct (truthy name); apply IH; [now apply NoDup_keys_set | exact Hnd].
Qed.

(** X6.  The value extracted from an object literal is an Object whose
    keys are distinct, and looking a non-empty key up in it gives the
    extracted value of the last property written with that key, as an
    identifier or as a quoted string; properties of other kinds (spread,
    methods), other keys and the empty key contribute nothing. *)
Theorem X6_object_literal_lookup_is_last_property :
  forall (symbols : SymbolTable) (props : list ASTNode),
  exists properties,
    extractValue (ObjectExpression props) symbols = VObject properties /\
    NoDup (JsMap.keys properties) /\
    forall k,
      JsMap.get k properties
      = if truthy k
        then option_map (fun value => extractValue value symbols)
               (lastValueFor k props)
        else None.
Proof.
  intros symbols props. eexists. split; [reflexivity|]. split.
  - apply extractProperties_NoDup. constructor.
  - intros k. rewrite extractProperties_lookup.
    destruct (truthy k); [|reflexivity].
    now destruct (lastValueFor k props).
Qed.

(** ** Declarations *)

Lemma declareAll_app (ds1 ds2 : list ASTNode) :
  forall symbols,
    declareAll (ds1 ++ ds2) symbols = declareAll ds2 (declareAll ds1 symbols).
Proof.
  induction ds1 as [|d ds1 IH]; intros symbols; [reflexivity|].
  rewrite <- app_comm_cons.
  destruct d; cbn [declareAll]; try apply IH.
  destruct d; try apply IH. destruct init; apply IH.
Qed.

(** X7.  Within a variable declaration the last declarator of a name
    wins, and its initialiser is evaluated against the table built up to
    that point: after declarators [ds1], [name = init], [ds2], where
    [ds2] does not declare [name] again, the table binds [name] to the
    value of [init] over the table after [ds1]. *)
Theorem X7_last_declaration_wins :
  forall (ds1 ds2 : list ASTNode) (name : string) (init : ASTNode)
         (symbols : SymbolTable),
    ~ In name (declaratorNames ds2) ->
    JsMap.get name
      (declareAll (ds1 ++ VariableDeclarator (Identifier name) (Some init) :: ds2)
         symbols)
    = Some (extractValue init (declareAll ds1 symbols)).
Proof.
  intros ds1 ds2 name init symbols Hnot.
  rewrite declareAll_app. cbn [declareAll].
  rewrite declareAll_get_other by assumption.
  now rewrite get_set, String.eqb_refl.
Qed.

Lemma X7_witness_redeclaration :
  let first := VariableDeclarator (Identifier "cls") (Some (StringLiteral "old")) in
  let suffix := VariableDeclarator (Identifier "other")
                  (Some (TemplateLiteral [""; "!"] [Identifier "cls"])) in
  ~ In "cls" (declaratorNames [suffix]) /\
  JsMap.get "cls"
    (declareAll
       ([first] ++ VariableDeclarator (Identifier "cls")
                     (Some (TemplateLiteral [""; "-new"] [Identifier "cls"]))
               :: [suffix]) [])
  = Some (VString "old-new").
Proof.
  intros first suffix.
  assert (Hnot : ~ In "cls" (declaratorNames [suffix])).
  { simpl. intros [H|[]]. discriminate H. }
  split; [exact Hnot|].
  exact (X7_last_declaration_wins [first] [suffix] "cls"
           (TemplateLiteral [""; "-new"] [Identifier "cls"]) [] Hnot).
Defined.

(** * Further properties of import resolution *)

Lemma find_app {A : Type} (f : A -> bool) (l1 l2 : list A) :
  find f (l1 ++ l2)
  = match find f l1 with Some x => Some x | None => find f l2 end.
Proof.
  induction l1 as [|x l1 IH]; [reflexivity|]. simpl.
  destruct (f x); [reflexivity | exact IH].
Qed.

Lemma find_existsb {A : Type} (f : A -> bool) (l : list A) :
  existsb f l = match find f l with Some _ => true | None => false end.
Proof.
  induction l as [|x l IH]; [reflexivity|]. simpl.
  destruct (f x); [reflexivity | exact IH].
Qed.

Lemma locateImport_first_candidate (dirname : string -> string)
  (resolve : string -> string -> string) (reader : FileReader)
  (current importPath : string) :
  locateImport dirname resolve reader current importPath
  = match find (exists_ reader)
            (importCandidates resolve (resolve (dirname current) importPath)) with
    | Some candidate => candidate
    | None => resolve (dirname current) importPath
    end.
Proof.
  unfold locateImport, importCandidates. cbv zeta.
  set (base := resolve (dirname current) importPath).
  cbn [find]. destruct (exists_ reader base) eqn:Hbase.
  - now rewrite Hbase.
  - rewrite find_app.
    destruct (find (exists_ reader) (map (fun ext => base +++ ext) extensions))
      as [withExt|] eqn:Hext.
    + apply find_some in Hext. destruct Hext as [_ Hex]. now rewrite Hex.
    + now rewrite Hbase.
Qed.

(** X9.  [resolveImport] locates the target by first match in a fixed
    order: the specifier resolved against the directory of the current
    file, then that path with [.ts], [.tsx], [.js], [.jsx] appended, then
    its [index.ts], [index.tsx], [index.js], [index.jsx].  The located
    path exists exactly when one of these nine candidates does. *)
Theorem X9_import_target_is_first_existing_candidate :
  forall (dirname : string -> string) (resolve : string -> string -> string)
         (reader : FileReader) (current importPath : string),
    let base := resolve (dirname current) importPath in
    let candidates :=
      [ base; base +++ ".ts"; base +++ ".tsx"; base +++ ".js"; base +++ ".jsx";
        resolve base "index.ts"; resolve base "index.tsx";
        resolve base "index.js"; resolve base "index.jsx" ] in
    locateImport dirname resolve reader current importPath
    = match find (exists_ reader) candidates with
      | Some candidate => candidate
      | None => base
      end /\
    exists_ reader (locateImport dirname resolve reader current importPath)
    = existsb (exists_ reader) candidates.
Proof.
  intros dirname resolve reader current importPath base candidates.
  assert (Hloc := locateImport_first_candidate dirname resolve reader
                    current importPath).
  change (importCandidates resolve (resolve (dirname current) importPath))
    with candidates in Hloc.
  fold base in Hloc. split; [exact Hloc|].
  rewrite Hloc, find_existsb.
  destruct (find (exists_ reader) candidates) as [c|] eqn:Hfind.
  - now apply find_some in Hfind.
  - assert (Hall := find_none _ _ Hfind base). apply Hall. now left.
Qed.

Lemma locateImport_ext (dirname : string -> string)
  (resolve : string -> string -> string) (reader reader' : FileReader)
  (current importPath : string) :
  (forall path, exists_ reader' path = exists_ reader path) ->
  locateImport dirname resolve reader' current importPath
  = locateImport dirname resolve reader current importPath.
Proof.
  intros Hsame. rewrite !locateImport_first_candidate.
  assert (Hfind : forall l, find (exists_ reader') l = find (exists_ reader) l).
  { induction l as [|x l IH]; [reflexivity|]. simpl. now rewrite Hsame, IH. }
  now rewrite Hfind.
Qed.

Section CacheProperties.
Variable dirname : string -> string.
Variable resolve : string -> string -> string.
Variable parse : string -> option ASTNode.

Lemma resolveImport_cached (parse' : string -> option ASTNode)
  (build : ASTNode -> string -> ImportCache -> outcome (SymbolTable * ImportCache))
  (reader : FileReader) (current importPath name : string)
  (cache : ImportCache) (table : SymbolTable) :
  exists_ reader (locateImport dirname resolve reader current importPath) = true ->
  JsMap.get (locateImport dirname resolve reader current importPath) cache
  = Some table ->
  resolveImport dirname resolve parse' current importPath name build reader cache
  = Done (getExportedValue table name, cache).
Proof.
  intros Hex Hc. unfold resolveImport. cbv zeta. now rewrite Hex, Hc.
Qed.

(** X10.  The import cache makes [resolveImport] idempotent: calling it
    again returns the same result and leaves the cache as it is.  Once
    the located file is in the cache, the result no longer depends on
    the file's content: whatever [read] and [parse] would now give (the
    file edited, unreadable or broken), the cached table is served, and
    the callback is not run. *)
Theorem X10_import_cache_is_idempotent_and_stale :
  forall (fuel : nat) (reader : FileReader) (current importPath name : string)
         (cache cache' : ImportCache) (r : option ResolvedValue),
    resolveImport dirname resolve parse current importPath name
      (buildImportSymbolTable dirname resolve parse (S fuel) reader) reader cache
    = Done (r, cache') ->
    resolveImport dirname resolve parse current importPath name
      (buildImportSymbolTable dirname resolve parse (S fuel) reader) reader cache'
    = Done (r, cache') /\
    (JsMap.has (locateImport dirname resolve reader current importPath) cache'
     = true ->
     forall (parse' : string -> option ASTNode) (reader' : FileReader)
            (build : ASTNode -> string -> ImportCache
                     -> outcome (SymbolTable * ImportCache)),
       (forall path, exists_ reader' path = exists_ reader path) ->
       resolveImport dirname resolve parse' current importPath name
         build reader' cache'
       = Done (r, cache')).
Proof.
  intros fuel reader current importPath name cache cache' r Hfirst.
  rewrite resolveImport_done in Hfirst. cbv zeta in Hfirst.
  set (path := locateImport dirname resolve reader current importPath) in *.
  destruct (exists_ reader path) eqn:Hex; simpl in Hfirst.
  - destruct (JsMap.get path cache) as [cached|] eqn:Hc.
    + injection Hfirst as <- <-. split.
      * now apply resolveImport_cached.
      * intros _ parse' reader' build Hsame.
        apply resolveImport_cached;
          rewrite (locateImport_ext _ _ reader reader' _ _ Hsame); fold path;
          [now rewrite Hsame | exact Hc].
    + assert (Hnone : JsMap.has path cache = true -> False)
        by (unfold JsMap.has; rewrite Hc; discriminate).
      destruct (read reader path) as [content|] eqn:Hr.
      2:{ injection Hfirst as <- <-. split.
          - rewrite resolveImport_done. cbv zeta. fold path.
            now rewrite Hex, Hc, Hr.
          - intros Hhas. now destruct (Hnone Hhas). }
      destruct (parse content) as [importedAst|] eqn:Hp.
      2:{ injection Hfirst as <- <-. split.
          - rewrite resolveImport_done. cbv zeta. fold path.
            now rewrite Hex, Hc, Hr, Hp.
          - intros Hhas. now destruct (Hnone Hhas). }
      clear Hnone. injection Hfirst as <- <-.
      assert (Hnew : JsMap.get path
                       (JsMap.set path (unchasedTable importedAst) cache)
                     = Some (unchasedTable importedAst))
        by now rewrite get_set, String.eqb_refl.
      split.
      * now apply resolveImport_cached.
      * intros _ parse' reader' build Hsame.
        apply resolveImport_cached;
          rewrite (locateImport_ext _ _ reader reader' _ _ Hsame); fold path;
          [now rewrite Hsame | exact Hnew].
  - injection Hfirst as <- <-. split.
    + rewrite resolveImport_done. cbv zeta. fold path. now rewrite Hex.
    + intros _ parse' reader' build Hsame. unfold resolveImport. cbv zeta.
      rewrite (locateImport_ext _ _ reader reader' _ _ Hsame). fold path.
      now rewrite Hsame, Hex.
Qed.

End CacheProperties.

Lemma X10_witness_edited_file :
  let reader := readerOf sampleFiles in
  let edited := readerOf editedFiles in
  let build := buildImportSymbolTable sampleDirname sampleResolve sampleParse 1 reader in
  let build' := buildImportSymbolTable sampleDirname sampleResolve editedParse 1 edited in
  let cached := [("/project/b.ts", [("b", VString "B"); ("a", VUnresolved)])] in
  resolveImport sampleDirname sampleResolve sampleParse
    "/project/a.ts" "./b" "b" build reader []
  = Done (Some (VString "B"), cached) /\
  resolveImport sampleDirname sampleResolve editedParse
    "/project/a.ts" "./b" "b" build' edited cached
  = Done (Some (VString "B"), cached) /\
  resolveImport sampleDirname sampleResolve editedParse
    "/project/a.ts" "./b" "b" build' edited (clearImportCache cached)
  = Done (Some (VString "edited"), [("/project/b.ts", [("b", VString "edited")])]).
Proof.
  intros reader edited build build' cached.
  split; [reflexivity|]. split; [|reflexivity].
  refine (proj2 (X10_import_cache_is_idempotent_and_stale
                   sampleDirname sampleResolve sampleParse 0 reader
                   "/project/a.ts" "./b" "b" [] cached (Some (VString "B"))
                   eq_refl) eq_refl editedParse edited build' _).
  intros path. unfold edited, reader, readerOf, editedFiles, JsMap.has. simpl.
  repeat match goal with
         | |- context [String.eqb path ?s] => destruct (String.eqb path s)
         end; reflexivity.
Defined.

(** ** Tables have distinct keys *)

Lemma declareAll_NoDup (declarations : list ASTNode) :
  forall symbols,
    NoDup (JsMap.keys symbols) ->
    NoDup (JsMap.keys (declareAll declarations symbols)).
Proof.
  induction declarations as [|d rest IH]; intros symbols Hnd; [exact Hnd|].
  destruct d; cbn [declareAll]; try now apply IH.
  destruct d; try now apply IH.
  destruct init; apply IH; [now apply NoDup_keys_set | exact Hnd].
Qed.

Lemma visit_NoDup (n : ASTNode) :
  forall st,
    NoDup (JsMap.keys (fst st)) -> NoDup (JsMap.keys (fst (visit n st))).
Proof.
  induction n as [n IH] using ASTNode_size_ind. intros st Hnd.
  rewrite visit_unfold.
  assert (Hfold : forall l,
             (forall c, In c l -> node_size c < node_size n) ->
             forall s, NoDup (JsMap.keys (fst s)) ->
                       NoDup (JsMap.keys
                                (fst (fold_left (fun s child => visit child s) l s)))).
  { induction l as [|c l IHl]; intros Hl s Hs; [exact Hs|].
    simpl. apply IHl.
    - intros c' Hin. apply Hl. now right.
    - apply IH; [apply Hl; now left | exact Hs]. }
  apply Hfold; [intros c Hin; now apply childNodes_size|].
  destruct n; try exact Hnd.
  - simpl. now apply declareAll_NoDup.
  - destruct declaration as [d|]; [destruct d|]; try exact Hnd.
    simpl. now apply declareAll_NoDup.
Qed.

Lemma markUnresolved_NoDup (pending : list PendingImport) :
  forall symbols,
    NoDup (JsMap.keys symbols) ->
    NoDup (JsMap.keys (markUnresolved pending symbols)).
Proof.
  unfold markUnresolved.
  induction pending as [|p rest IH]; intros symbols Hnd; [exact Hnd|].
  simpl. apply IH. now apply NoDup_keys_set.
Qed.

Lemma unchasedTable_NoDup (ast : ASTNode) : NoDup (JsMap.keys (unchasedTable ast)).
Proof.
  unfold unchasedTable. apply markUnresolved_NoDup, visit_NoDup. constructor.
Qed.

(** ** Namespace imports *)

Lemma set_fresh {V : Type} (k : string) (v : V) (m : list (string * V)) :
  ~ In k (JsMap.keys m) -> JsMap.set k v m = m ++ [(k, v)].
Proof.
  unfold JsMap.keys. induction m as [|[k0 v0] m IH]; intros Hnot; simpl.
  - reflexivity.
  - destruct (String.eqb k k0) eqn:E.
    + apply String.eqb_eq in E. subst. exfalso. apply Hnot. now left.
    + rewrite IH; [reflexivity|]. intros H. apply Hnot. now right.
Qed.

Lemma namespace_fold (symbols : SymbolTable) :
  forall properties : list (string * ResolvedValue),
    NoDup (JsMap.keys properties ++ JsMap.keys symbols) ->
    fold_left
      (fun properties '(name, value) =>
         match value with
         | VUnresolved => properties
         | _ => JsMap.set name value properties
         end) symbols properties
    = properties ++ filter (fun kv => negb (isUnresolved (snd kv))) symbols.
Proof.
  induction symbols as [|[k v] rest IH]; intros properties Hnd.
  - simpl. now rewrite app_nil_r.
  - simpl in Hnd. assert (Hrest := NoDup_remove_1 _ _ _ Hnd).
    assert (Hfresh : ~ In k (JsMap.keys properties)).
    { intros H. apply (NoDup_remove_2 _ _ _ Hnd). apply in_app_iff. now left. }
    assert (Hkept : forall value,
               NoDup (JsMap.keys (properties ++ [(k, value)]) ++ JsMap.keys rest)).
    { intros value. unfold JsMap.keys in *. rewrite map_app. simpl.
      now rewrite <- app_assoc. }
    cbn [fold_left filter snd].
    destruct v as [s|ps|]; cbn [isUnresolved negb].
    + rewrite set_fresh by assumption. rewrite IH by apply Hkept.
      now rewrite <- app_assoc.
    + rewrite set_fresh by assumption. rewrite IH by apply Hkept.
      now rewrite <- app_assoc.
    + now apply IH.
Qed.

Lemma namespace_object (symbols : SymbolTable) :
  NoDup (JsMap.keys symbols) ->
  getExportedValue symbols "*"
  = Some (VObject (filter (fun kv => negb (isUnresolved (snd kv))) symbols)).
Proof.
  intros Hnd. unfold getExportedValue. cbn [String.eqb Ascii.eqb Bool.eqb].
  simpl (String.eqb "*" "*"). now rewrite namespace_fold.
Qed.

(** X12.  A namespace import ([*]) gets an Object that holds the bindings
    of the imported table that are not Unresolved, with their values and
    in their order; the Unresolved bindings are dropped, not carried
    along. *)
Theorem X12_namespace_export_keeps_resolved_bindings :
  forall (symbols : SymbolTable),
    NoDup (JsMap.keys symbols) ->
    getExportedValue symbols "*"
    = Some (VObject (filter (fun kv => negb (isUnresolved (snd kv))) symbols)).
Proof. exact namespace_object. Qed.

Lemma X12_witness_namespace :
  getExportedValue
    [("a", VString "value-a"); ("helper", VUnresolved);
     ("sizes", VObject [("sm", VString "text-sm")])] "*"
  = Some (VObject [("a", VString "value-a");
                   ("sizes", VObject [("sm", VString "text-sm")])]).
Proof.
  refine (X12_namespace_export_keeps_resolved_bindings _ _).
  repeat constructor; simpl; intuition discriminate.
Defined.

Lemma get_filter_resolved (symbols : SymbolTable) (k : string) :
  NoDup (JsMap.keys symbols) ->
  JsMap.get k (filter (fun kv => negb (isUnresolved (snd kv))) symbols)
  = match JsMap.get k symbols with
    | Some VUnresolved => None
    | found => found
    end.
Proof.
  unfold JsMap.keys. induction symbols as [|[k0 v0] rest IH]; intros Hnd;
    [reflexivity|].
  inversion Hnd as [|x l Hnotin Hrest]; subst. simpl.
  destruct (String.eqb k k0) eqn:E.
  - apply String.eqb_eq in E. subst k0.
    destruct v0; simpl; rewrite ?String.eqb_refl; try reflexivity.
    rewrite (IH Hrest).
    assert (Hnone : JsMap.get k rest = None) by now apply get_none_iff.
    now rewrite Hnone.
  - destruct v0; simpl; rewrite ?E; now apply IH.
Qed.

(** X14.  Through a namespace import, a static access [t.a] resolves as
    the binding of [a] in the imported file's table: fully resolved with
    its text when that binding is a String, unresolved with the fragment
    [t.a] otherwise (no binding, an Object, or an Unresolved binding,
    which the namespace object does not hold). *)
Theorem X14_static_access_through_namespace_import :
  forall (importedAst : ASTNode) (symbols : SymbolTable) (t a : string),
    JsMap.get t symbols = getExportedValue (unchasedTable importedAst) "*" ->
    resolveExpression
      (MemberExpression (Identifier t) (Identifier a) false) symbols
    = match JsMap.get a (unchasedTable importedAst) with
      | Some (VString value) => mkResult value true []
      | _ => mkResult "" false [t +++ "." +++ a]
      end.
Proof.
  intros importedAst symbols t a Hns.
  rewrite static_access_step. unfold baseValue. rewrite Hns.
  rewrite (namespace_object _ (unchasedTable_NoDup importedAst)).
  rewrite (get_filter_resolved _ a (unchasedTable_NoDup importedAst)).
  unfold unresolvedAs. cbn [stringifyExpr].
  destruct (JsMap.get a (unchasedTable importedAst)) as [[s|ps|]|]; reflexivity.
Qed.

Lemma X14_witness_namespace_access :
  let symbols := [("tokens", VObject [("b", VString "B")])] in
  JsMap.get "tokens" symbols = getExportedValue (unchasedTable cycleBAst) "*" /\
  resolveExpression
    (MemberExpression (Identifier "tokens") (Identifier "b") false) symbols
  = mkResult "B" true [] /\
  resolveExpression
    (MemberExpression (Identifier "tokens") (Identifier "a") false) symbols
  = mkResult "" false ["tokens.a"].
Proof.
  intros symbols. split; [reflexivity|]. split.
  - exact (X14_static_access_through_namespace_import
             cycleBAst symbols "tokens" "b" eq_refl).
  - exact (X14_static_access_through_namespace_import
             cycleBAst symbols "tokens" "a" eq_refl).
Defined.

(** ** Builds with and without file access *)

Lemma cacheGrows_refl (parse : string -> option ASTNode) (reader : FileReader)
  (cache : ImportCache) : cacheGrows parse reader cache cache.
Proof. split; intros path table H; [exact H | now left]. Qed.

Lemma cacheGrows_trans (parse : string -> option ASTNode) (reader : FileReader)
  (c1 c2 c3 : ImportCache) :
  cacheGrows parse reader c1 c2 -> cacheGrows parse reader c2 c3 ->
  cacheGrows parse reader c1 c3.
Proof.
  intros [K1 N1] [K2 N2]. split.
  - intros path table H. now apply K2, K1.
  - intros path table H. destruct (N2 _ _ H) as [H2|H2]; [|now right].
    now apply N1.
Qed.

Section BuildProperties.
Variable dirname : string -> string.
Variable resolve : string -> string -> string.
Variable parse : string -> option ASTNode.

Lemma unchasedTable_lookup (ast : ASTNode) (name : string) :
  JsMap.get name (unchasedTable ast)
  = if existsb (String.eqb name) (map localName (pendingImportsOf ast))
    then Some VUnresolved
    else JsMap.get name (fst (visit ast ([], []))).
Proof.
  unfold unchasedTable.
  destruct (existsb _ _) eqn:E.
  - apply markUnresolved_get_import. apply existsb_exists in E.
    destruct E as (x & Hin & Hx). apply String.eqb_eq in Hx. now subst.
  - apply markUnresolved_get_other. intros Hin.
    assert (Ht : existsb (String.eqb name)
                   (map localName (pendingImportsOf ast)) = true).
    { apply existsb_exists. exists name. split; [exact Hin|].
      apply String.eqb_refl. }
    congruence.
Qed.

(** X8.  Without a usable file context (no current file path, an empty
    one, or [followImports = false]) [buildSymbolTable] never touches the
    file reader or the import cache: one unit of fuel is enough, the
    cache comes back as it was, and the table is the one of the
    traversal with every imported local name bound to Unresolved, an
    import taking precedence over a declaration of the same name. *)
Theorem X8_build_without_file_context :
  forall (fuel : nat) (ast : ASTNode) (options : BuildSymbolTableOptions)
         (cache : ImportCache),
    currentFilePath options = None \/
    currentFilePath options = Some "" \/
    followImports options = Some false ->
    buildSymbolTable dirname resolve parse (S fuel) ast options cache
    = Done (unchasedTable ast, cache) /\
    forall name,
      JsMap.get name (unchasedTable ast)
      = if existsb (String.eqb name) (map localName (pendingImportsOf ast))
        then Some VUnresolved
        else JsMap.get name (fst (visit ast ([], []))).
Proof.
  intros fuel ast options cache Hctx. split; [|apply unchasedTable_lookup].
  apply buildSymbolTable_unchased. unfold chasesImports.
  destruct Hctx as [H|[H|H]]; rewrite H; try reflexivity.
  destruct (currentFilePath options); [apply andb_false_r | reflexivity].
Qed.

Lemma resolveImport_grows (fuel : nat) (reader : FileReader)
  (current importPath name : string) (cache cache' : ImportCache)
  (r : option ResolvedValue) :
  resolveImport dirname resolve parse current importPath name
    (buildImportSymbolTable dirname resolve parse (S fuel) reader) reader cache
  = Done (r, cache') ->
  cacheGrows parse reader cache cache'.
Proof.
  rewrite resolveImport_done. cbv zeta.
  set (path := locateImport dirname resolve reader current importPath).
  destruct (exists_ reader path) eqn:Hex; simpl;
    [|intros H; injection H as <- <-; apply cacheGrows_refl].
  destruct (JsMap.get path cache) as [cached|] eqn:Hc;
    [intros H; injection H as <- <-; apply cacheGrows_refl|].
  destruct (read reader path) as [content|] eqn:Hr;
    [|intros H; injection H as <- <-; apply cacheGrows_refl].
  destruct (parse content) as [importedAst|] eqn:Hp;
    [|intros H; injection H as <- <-; apply cacheGrows_refl].
  intros H. injection H as <- <-. split.
  - intros q table Hq. rewrite get_set.
    destruct (String.eqb q path) eqn:E; [|exact Hq].
    apply String.eqb_eq in E. subst q. congruence.
  - intros q table Hq. rewrite get_set in Hq.
    destruct (String.eqb q path) eqn:E; [|now left].
    apply String.eqb_eq in E. subst q. injection Hq as <-.
    right. exists content, importedAst. auto.
Qed.

Lemma resolvePending_grows (fuel : nat) (options : BuildSymbolTableOptions)
  (pending : list PendingImport) :
  forall symbols cache table cache',
    resolvePendingImports dirname resolve parse options
      (buildImportSymbolTable dirname resolve parse (S fuel) (fileReader options))
      pending symbols cache
    = Done (table, cache') ->
    NoDup (JsMap.keys symbols) ->
    cacheGrows parse (fileReader options) cache cache' /\
    NoDup (JsMap.keys table).
Proof.
  induction pending as [|p rest IH]; intros symbols cache table cache' Hrun Hnd.
  - injection Hrun as <- <-. split; [apply cacheGrows_refl | exact Hnd].
  - cbn [resolvePendingImports] in Hrun.
    assert (Hskip : forall v,
               resolvePendingImports dirname resolve parse options
                 (buildImportSymbolTable dirname resolve parse (S fuel)
                    (fileReader options)) rest
                 (JsMap.set (localName p) v symbols) cache
               = Done (table, cache') ->
               cacheGrows parse (fileReader options) cache cache' /\
               NoDup (JsMap.keys table)).
    { intros v H. apply (IH _ _ _ _ H). now apply NoDup_keys_set. }
    destruct (currentFilePath options) as [path|]; [|now apply Hskip in Hrun].
    destruct (truthy path && _); [|now apply Hskip in Hrun].
    destruct (resolveImport _ _ _ _ _ _ _ _ _) as [[r c]|] eqn:Hres;
      [|discriminate].
    apply resolveImport_grows in Hres.
    assert (Hstep : forall v,
               resolvePendingImports dirname resolve parse options
                 (buildImportSymbolTable dirname resolve parse (S fuel)
                    (fileReader options)) rest
                 (JsMap.set (localName p) v symbols) c
               = Done (table, cache') ->
               cacheGrows parse (fileReader options) cache cache' /\
               NoDup (JsMap.keys table)).
    { intros v H. apply IH in H; [|now apply NoDup_keys_set].
      destruct H as [Hg Hn]. split; [|exact Hn].
      eapply cacheGrows_trans; eassumption. }
    destruct r; now apply Hstep in Hrun.
Qed.

(** X11.  A build only ever adds to the import cache: every entry that
    was there is still there with the same table, and every new entry is
    the table, built without chasing imports, of an existing file that
    was read and parsed.  The table returned has distinct keys. *)
Theorem X11_build_only_adds_unchased_tables_to_cache :
  forall (fuel : nat) (ast : ASTNode) (options : BuildSymbolTableOptions)
         (cache : ImportCache),
  exists table cache',
    buildSymbolTable dirname resolve parse (S (S fuel)) ast options cache
    = Done (table, cache') /\
    cacheGrows parse (fileReader options) cache cache' /\
    NoDup (JsMap.keys table).
Proof.
  intros fuel ast options cache.
  destruct (buildSymbolTable_total dirname resolve parse fuel ast options cache)
    as (table & cache' & Heq & _).
  exists table, cache'. split; [exact Heq|].
  cbn [buildSymbolTable] in Heq.
  pose proof (visit_NoDup ast ([], []) (NoDup_nil _)) as Hnd.
  destruct (visit ast ([], [])) as [symbols pending].
  exact (resolvePending_grows fuel options pending symbols cache table cache'
           Heq Hnd).
Qed.

(** X13.  When an import is chased and its file is found, not yet
    cached, readable and parsable, the local name is bound to what the
    imported file's table (built without chasing its own imports) holds
    for the requested export, or to Unresolved when it holds nothing,
    and that table enters the cache under the located path.  A renamed
    import is looked up under its imported name and bound under its
    local name. *)
Theorem X13_chased_import_binds_the_exported_value :
  forall (fuel : nat) (options : BuildSymbolTableOptions) (current : string)
         (p : PendingImport) (rest : list PendingImport)
         (symbols : SymbolTable) (cache : ImportCache)
         (content : string) (importedAst : ASTNode),
    let reader := fileReader options in
    let build := buildImportSymbolTable dirname resolve parse (S fuel) reader in
    let path := locateImport dirname resolve reader current (sourcePath p) in
    currentFilePath options = Some current ->
    chasesImports options = true ->
    exists_ reader path = true ->
    JsMap.get path cache = None ->
    read reader path = Some content ->
    parse content = Some importedAst ->
    resolvePendingImports dirname resolve parse options build
      (p :: rest) symbols cache
    = resolvePendingImports dirname resolve parse options build rest
        (JsMap.set (localName p)
           (match getExportedValue (unchasedTable importedAst) (importedName p) with
            | Some value => value
            | None => VUnresolved
            end) symbols)
        (JsMap.set path (unchasedTable importedAst) cache).
Proof.
  intros fuel options current p rest symbols cache content importedAst
         reader build path Hcur Hchase Hex Hc Hr Hp.
  cbn [resolvePendingImports]. unfold chasesImports in Hchase.
  rewrite Hcur in Hchase |- *. rewrite Hchase.
  subst build. rewrite resolveImport_done. cbv zeta. fold reader. fold path.
  rewrite Hex, Hc, Hr, Hp. simpl.
  now destruct (getExportedValue (unchasedTable importedAst) (importedName p)).
Qed.

End BuildProperties.

Lemma X8_witness_no_file_context :
  let options := mkOptions None None (readerOf sampleFiles) in
  buildSymbolTable sampleDirname sampleResolve sampleParse 1 cycleAAst options []
  = Done ([("a", VString "A"); ("b", VUnresolved)], []).
Proof.
  intros options.
  exact (proj1 (X8_build_without_file_context sampleDirname sampleResolve
                  sampleParse 0 cycleAAst options [] (or_introl eq_refl))).
Defined.

Lemma X13_witness_renamed_import :
  let options := sampleOptions "/project/component.tsx" in
  let p := mkPending "renamed" "b" "./b" in
  resolvePendingImports sampleDirname sampleResolve sampleParse options
    (buildImportSymbolTable sampleDirname sampleResolve sampleParse 1
       (fileReader options)) [p] [] []
  = Done ([("renamed", VString "B")],
          [("/project/b.ts", [("b", VString "B"); ("a", VUnresolved)])]).
Proof.
  intros options p.
  exact (X13_chased_import_binds_the_exported_value sampleDirname sampleResolve
           sampleParse 0 options "/project/component.tsx" p [] [] []
           cycleBSource cycleBAst eq_refl eq_refl eq_refl eq_refl eq_refl eq_refl).
Defined.

(** * Properties of the analyzer *)

Lemma fold_left_sum {A : Type} (f : A -> nat) (l : list A) :
  forall n, fold_left (fun sum a => sum + f a) l n = n + list_sum (map f l).
Proof.
  induction l as [|a l IH]; intros n; simpl; [lia|]. rewrite IH. lia.
Qed.

Lemma filter_length_split {A : Type} (f : A -> bool) (l : list A) :
  length l = length (filter (fun a => negb (f a)) l) + length (filter f l).
Proof.
  induction l as [|a l IH]; [reflexivity|]. simpl.
  destruct (f a); simpl; lia.
Qed.

Lemma in_without (x s : StateName) (l : list StateName) :
  In x (without s l) <-> In x l /\ x <> s.
Proof.
  unfold without. rewrite filter_In.
  destruct (String.eqb x s) eqn:E; simpl.
  - apply String.eqb_eq in E. intuition congruence.
  - apply String.eqb_neq in E. intuition.
Qed.

Lemma includesState_In (l : list StateName) (s : StateName) :
  includesState l s = true <-> In s l.
Proof.
  unfold includesState. rewrite existsb_exists. split.
  - intros (x & Hin & Hx). apply String.eqb_eq in Hx. now subst.
  - intros Hin. exists s. split; [exact Hin | apply String.eqb_refl].
Qed.

Lemma statesRecord_get (requiredStates presentStates : list StateName)
  (file : string) (line : nat) (s : StateName) :
  JsMap.get s (statesRecord requiredStates presentStates file line)
  = if includesState requiredStates s
    then Some (mkStatus (includesState presentStates s)
                 (if includesState presentStates s
                  then Some (mkLocation file line) else None))
    else None.
Proof.
  unfold statesRecord.
  change (@None StateStatus) with (JsMap.get s (@nil (string * StateStatus))).
  generalize (@nil (string * StateStatus)) as record.
  induction requiredStates as [|x rest IH]; intros record; [reflexivity|].
  cbn [fold_left]. rewrite IH, get_set.
  change (includesState (x :: rest) s)
    with (String.eqb s x || includesState rest s).
  destruct (includesState rest s); [now rewrite orb_true_r|].
  rewrite orb_false_r. destruct (String.eqb s x) eqn:E; [|reflexivity].
  apply String.eqb_eq in E. now subst.
Qed.

(** X18.  The states required of a JSX element never include one that
    means nothing for it: [disabled] only if the element can be disabled
    and its [disabled] attribute is not conditional, [invalid] only if it
    has a validation attribute, [placeholder] only if it has a
    placeholder, [hover] never for a radio button or checkbox; and a
    content region is required at most [focus]. *)
Theorem X18_required_states_fit_the_element :
  forall (customStates : option (list (string * option (list StateName))))
         (element : ElementInfo.t),
    let required := requiredStatesOf customStates element in
    (In "disabled" required ->
     ElementInfo.canBeDisabled element = true /\
     ElementInfo.hasConditionalDisabled element = false) /\
    (In "invalid" required -> ElementInfo.canBeInvalid element = true) /\
    (In "placeholder" required -> ElementInfo.hasPlaceholder element = true) /\
    (In "hover" required -> ElementInfo.isRadioOrCheckbox element = false) /\
    (ElementInfo.isContentRegion element = true ->
     forall s, In s required -> s = "focus").
Proof.
  intros customStates element required. subst required.
  unfold requiredStatesOf.
  destruct (ElementInfo.canBeDisabled element),
           (ElementInfo.hasConditionalDisabled element),
           (ElementInfo.canBeInvalid element),
           (ElementInfo.hasPlaceholder element),
           (ElementInfo.isRadioOrCheckbox element);
    cbn [negb orb];
    refine (conj _ (conj _ (conj _ (conj _ _))));
    try (intros H; rewrite ?in_without in H; solve [intuition congruence]);
    intros Hregion s H; rewrite Hregion in H; rewrite ?in_without in H;
    simpl in H; intuition.
Qed.

Section AnalyzerProperties.
Variable matchesPattern : string -> string -> bool.
Variable toLowerCase : string -> string.
Variable roundedPercentage : nat -> nat -> nat.
Variable Threshold : Type.
Variable atLeast : nat -> Threshold -> bool.

Local Abbreviation run :=
  (analyze matchesPattern toLowerCase roundedPercentage Threshold atLeast).
Local Abbreviation ofElement := (analyzeElement matchesPattern Threshold).
Local Abbreviation ofSelector := (analyzeSelector matchesPattern toLowerCase Threshold).

Lemma pushAll_fst {Item : Type}
  (analyzeItem : string -> Item -> option StateAnalysis.t)
  (results : list (string * list Item)) :
  forall acc,
    fst (pushAll analyzeItem results acc)
    = fst acc ++ collected analyzeItem results.
Proof.
  unfold pushAll, collected.
  induction results as [|[file items] results IH]; intros [analyses filesSet].
  - simpl. now rewrite app_nil_r.
  - cbn [fold_left flat_map fst snd]. rewrite IH. cbn [fst].
    rewrite app_assoc. f_equal.
    clear. revert analyses.
    induction items as [|item items IH]; intros analyses; simpl.
    + now rewrite app_nil_r.
    + rewrite IH. destruct (analyzeItem file item); simpl;
        [now rewrite <- app_assoc | reflexivity].
Qed.

(** The fields of the result in terms of the analyses pushed. *)
Lemma analyze_fields (options : AnalyzeOptions Threshold) :
  let all :=
    collected (ofElement options) (jsxResults Threshold options)
    ++ collected (ofSelector options) (cssResults Threshold options) in
  let counted := resolvedOnly all in
  let totalRequired :=
    sumOf (fun a => length (StateAnalysis.requiredStates a)) counted in
  let totalPresent :=
    sumOf (fun a => length (StateAnalysis.requiredStates a)
                    - length (StateAnalysis.missingStates a)) counted in
  let percentage :=
    if Nat.ltb 0 totalRequired then roundedPercentage totalPresent totalRequired
    else 100 in
  analyses (run options) = all /\
  elements (run options) = length all /\
  unresolvedCount (run options)
  = length (filter StateAnalysis.hasUnresolvedExpressions all) /\
  coverage (run options) = Coverage.mk totalRequired totalPresent percentage /\
  passed (run options) = atLeast percentage (optThreshold Threshold options).
Proof.
  cbv zeta. unfold analyze.
  pose proof (pushAll_fst (ofSelector options) (cssResults Threshold options)
                (pushAll (ofElement options) (jsxResults Threshold options)
                   ([], []))) as Hfst.
  rewrite (pushAll_fst (ofElement options)) in Hfst. cbn [fst app] in Hfst.
  destruct (pushAll (ofSelector options) _ _) as [all filesSet].
  cbn [fst] in Hfst. subst all.
  cbn [analyses elements unresolvedCount coverage passed].
  unfold sumOf, resolvedOnly. rewrite !fold_left_sum. cbn [Nat.add].
  repeat split.
Qed.

Lemma in_collected {Item : Type}
  (analyzeItem : string -> Item -> option StateAnalysis.t)
  (results : list (string * list Item)) (a : StateAnalysis.t) :
  In a (collected analyzeItem results) ->
  exists file item, analyzeItem file item = Some a.
Proof.
  unfold collected. intros Hin. apply in_flat_map in Hin.
  destruct Hin as ([file items] & _ & Hin). apply in_flat_map in Hin.
  destruct Hin as (item & _ & Hin). cbn [fst] in Hin.
  exists file, item. destruct (analyzeItem file item); simpl in Hin;
    [destruct Hin as [->|[]]; reflexivity | contradiction].
Qed.

Lemma ofElement_flag (options : AnalyzeOptions Threshold) (file : string)
  (element : ElementInfo.t) (a : StateAnalysis.t) :
  ofElement options file element = Some a ->
  StateAnalysis.hasUnresolvedExpressions a
  = ElementInfo.hasUnresolvedExpressions element.
Proof.
  unfold analyzeElement. destruct (_ && _); [discriminate|].
  intros H. injection H as <-. reflexivity.
Qed.

Lemma ofSelector_flag (options : AnalyzeOptions Threshold) (file : string)
  (sel : SelectorInfo.t) (a : StateAnalysis.t) :
  ofSelector options file sel = Some a ->
  StateAnalysis.hasUnresolvedExpressions a = false.
Proof.
  unfold analyzeSelector. destruct (_ && _); [discriminate|].
  intros H. injection H as <-. reflexivity.
Qed.

Lemma selectors_all_counted (options : AnalyzeOptions Threshold)
  (results : list (string * list SelectorInfo.t)) :
  resolvedOnly (collected (ofSelector options) results)
  = collected (ofSelector options) results /\
  filter StateAnalysis.hasUnresolvedExpressions
    (collected (ofSelector options) results) = [].
Proof.
  assert (Hall : forall a, In a (collected (ofSelector options) results) ->
                           StateAnalysis.hasUnresolvedExpressions a = false).
  { intros a Hin. apply in_collected in Hin. destruct Hin as (f & s & H).
    now apply ofSelector_flag in H. }
  revert Hall. generalize (collected (ofSelector options) results) as l.
  unfold resolvedOnly. induction l as [|a l IH]; intros Hall; [now split|].
  simpl. rewrite (Hall a (or_introl eq_refl)). simpl.
  destruct IH as [IH1 IH2]; [intros b Hb; apply Hall; now right|].
  now rewrite IH1, IH2.
Qed.

Lemma elements_dropped (options : AnalyzeOptions Threshold)
  (results : list (string * list ElementInfo.t)) :
  collected (ofElement options) (dropUnresolvedElements results)
  = resolvedOnly (collected (ofElement options) results).
Proof.
  unfold collected, dropUnresolvedElements, resolvedOnly.
  induction results as [|[file items] results IH]; [reflexivity|].
  cbn [map flat_map fst snd]. rewrite filter_app, IH. f_equal.
  clear. induction items as [|e items IH]; [reflexivity|].
  cbn [filter flat_map].
  destruct (ofElement options file e) as [a|] eqn:Ha.
  - apply ofElement_flag in Ha as Hflag. cbn [app filter]. rewrite Hflag.
    destruct (ElementInfo.hasUnresolvedExpressions e); cbn [negb flat_map].
    + exact IH.
    + rewrite Ha. cbn [app]. now rewrite IH.
  - destruct (ElementInfo.hasUnresolvedExpressions e); cbn [negb flat_map app].
    + exact IH.
    + rewrite Ha. exact IH.
Qed.

Lemma resolvedOnly_idempotent (l : list StateAnalysis.t) :
  resolvedOnly (resolvedOnly l) = resolvedOnly l.
Proof.
  unfold resolvedOnly. induction l as [|a l IH]; [reflexivity|]. simpl.
  destruct (StateAnalysis.hasUnresolvedExpressions a) eqn:E; simpl;
    [exact IH | now rewrite E, IH].
Qed.

Lemma resolvedOnly_no_unresolved (l : list StateAnalysis.t) :
  filter StateAnalysis.hasUnresolvedExpressions (resolvedOnly l) = [].
Proof.
  unfold resolvedOnly. induction l as [|a l IH]; [reflexivity|]. simpl.
  destruct (StateAnalysis.hasUnresolvedExpressions a) eqn:E; simpl;
    [exact IH | now rewrite E, IH].
Qed.

(** X15.  Elements with unresolved expressions are left out of the
    coverage accounting: analysing the same input without them gives the
    same coverage (total, present, percentage) and the same verdict
    [passed].  They are only counted: the number of elements is that of
    the run without them plus [unresolvedCount]. *)
Theorem X15_unresolved_elements_do_not_affect_coverage :
  forall (options : AnalyzeOptions Threshold),
    let without_them :=
      withJsxResults options
        (dropUnresolvedElements (jsxResults Threshold options)) in
    coverage (run without_them) = coverage (run options) /\
    passed (run without_them) = passed (run options) /\
    unresolvedCount (run without_them) = 0 /\
    elements (run options)
    = elements (run without_them) + unresolvedCount (run options).
Proof.
  intros options without_them.
  destruct (analyze_fields options) as (_ & He & Hu & Hc & Hp).
  destruct (analyze_fields without_them) as (_ & He' & Hu' & Hc' & Hp').
  cbv zeta in *.
  change (ofElement without_them) with (ofElement options) in *.
  change (ofSelector without_them) with (ofSelector options) in *.
  change (jsxResults Threshold without_them)
    with (dropUnresolvedElements (jsxResults Threshold options)) in *.
  change (cssResults Threshold without_them)
    with (cssResults Threshold options) in *.
  change (optThreshold Threshold without_them)
    with (optThreshold Threshold options) in *.
  rewrite elements_dropped in *.
  destruct (selectors_all_counted options (cssResults Threshold options))
    as [Hsel Hnone].
  assert (Hsame :
    resolvedOnly
      (resolvedOnly (collected (ofElement options) (jsxResults Threshold options))
       ++ collected (ofSelector options) (cssResults Threshold options))
    = resolvedOnly
        (collected (ofElement options) (jsxResults Threshold options)
         ++ collected (ofSelector options) (cssResults Threshold options))).
  { unfold resolvedOnly at 1 3. rewrite !filter_app.
    fold (resolvedOnly (resolvedOnly
            (collected (ofElement options) (jsxResults Threshold options)))).
    now rewrite resolvedOnly_idempotent. }
  rewrite Hsame in Hc', Hp'.
  split; [now rewrite Hc, Hc'|]. split; [now rewrite Hp, Hp'|]. split.
  - rewrite Hu', filter_app, resolvedOnly_no_unresolved, Hnone. reflexivity.
  - rewrite He, He', Hu, !length_app, filter_app, Hnone, app_nil_r.
    rewrite (filter_length_split StateAnalysis.hasUnresolvedExpressions
               (collected (ofElement options) (jsxResults Threshold options))).
    unfold resolvedOnly. lia.
Qed.

Lemma missing_le_required (options : AnalyzeOptions Threshold)
  (a : StateAnalysis.t) :
  In a (analyses (run options)) ->
  length (StateAnalysis.missingStates a)
  <= length (StateAnalysis.requiredStates a).
Proof.
  destruct (analyze_fields options) as (Ha & _). rewrite Ha. intros Hin.
  apply in_app_iff in Hin. destruct Hin as [Hin|Hin];
    apply in_collected in Hin; destruct Hin as (file & item & H).
  - unfold analyzeElement in H. destruct (_ && _); [discriminate|].
    injection H as <-. cbn [StateAnalysis.missingStates
                             StateAnalysis.requiredStates].
    destruct (ElementInfo.hasUnresolvedExpressions item);
      [apply Nat.le_0_l | apply filter_length_le].
  - unfold analyzeSelector in H. destruct (_ && _); [discriminate|].
    injection H as <-. cbn [StateAnalysis.missingStates
                             StateAnalysis.requiredStates].
    apply filter_length_le.
Qed.

(** X16.  The coverage figures add up: over the analyses that count
    (those without unresolved expressions), the states present plus the
    states reported missing are the states required, so [present] never
    exceeds [total]; when nothing is required the percentage is 100. *)
Theorem X16_coverage_adds_up :
  forall (options : AnalyzeOptions Threshold),
    let counted := resolvedOnly (analyses (run options)) in
    Coverage.present (coverage (run options))
    + sumOf (fun a => length (StateAnalysis.missingStates a)) counted
    = Coverage.total (coverage (run options)) /\
    Coverage.present (coverage (run options))
    <= Coverage.total (coverage (run options)) /\
    (Coverage.total (coverage (run options)) = 0 ->
     Coverage.percentage (coverage (run options)) = 100).
Proof.
  intros options counted.
  assert (Hle : forall a, In a counted ->
                  length (StateAnalysis.missingStates a)
                  <= length (StateAnalysis.requiredStates a)).
  { intros a Hin. apply (missing_le_required options).
    unfold counted, resolvedOnly in Hin. now apply filter_In in Hin. }
  destruct (analyze_fields options) as (Ha & _ & _ & Hc & _). cbv zeta in Hc.
  rewrite <- Ha in Hc. fold counted in Hc. rewrite Hc.
  cbn [Coverage.present Coverage.total Coverage.percentage].
  assert (Hsum :
    sumOf (fun a => length (StateAnalysis.requiredStates a)
                    - length (StateAnalysis.missingStates a)) counted
    + sumOf (fun a => length (StateAnalysis.missingStates a)) counted
    = sumOf (fun a => length (StateAnalysis.requiredStates a)) counted).
  { clear Hc. unfold sumOf. induction counted as [|a l IH]; [reflexivity|].
    simpl. specialize (Hle a (or_introl eq_refl)) as Ha'.
    rewrite <- IH by (intros b Hb; apply Hle; now right). lia. }
  split; [exact Hsum|]. split; [lia|].
  intros Hzero. rewrite Hzero. reflexivity.
Qed.

(** X17.  Every analysis is consistent: a state reported missing is a
    required one; an analysis with unresolved expressions reports no
    missing state; and when the expressions are resolved, a required
    state is missing exactly when its status says it is not present.  A
    status carries a location exactly when the state is present. *)
Theorem X17_missing_states_are_required_and_absent :
  forall (options : AnalyzeOptions Threshold) (a : StateAnalysis.t),
    In a (analyses (run options)) ->
    (forall s, In s (StateAnalysis.missingStates a) ->
               In s (StateAnalysis.requiredStates a)) /\
    (StateAnalysis.hasUnresolvedExpressions a = true ->
     StateAnalysis.missingStates a = []) /\
    (forall s, In s (StateAnalysis.requiredStates a) ->
       exists status,
         JsMap.get s (StateAnalysis.states a) = Some status /\
         (present status = true <-> location status <> None) /\
         (StateAnalysis.hasUnresolvedExpressions a = false ->
          (In s (StateAnalysis.missingStates a) <-> present status = false))).
Proof.
  intros options a Hin.
  destruct (analyze_fields options) as (Ha & _). rewrite Ha in Hin.
  assert (Hshape : exists required presentStates file line (flag : bool),
             StateAnalysis.requiredStates a = required /\
             StateAnalysis.states a
             = statesRecord required presentStates file line /\
             StateAnalysis.hasUnresolvedExpressions a = flag /\
             StateAnalysis.missingStates a
             = if flag then []
               else filter (fun s => negb (includesState presentStates s))
                      required).
  { apply in_app_iff in Hin. destruct Hin as [Hin|Hin];
      apply in_collected in Hin; destruct Hin as (file & item & H).
    - unfold analyzeElement in H. destruct (_ && _); [discriminate|].
      injection H as <-. cbn. eauto 10.
    - unfold analyzeSelector in H. destruct (_ && _); [discriminate|].
      injection H as <-. cbn. exists (getRequiredStates
        (inferElementType toLowerCase (SelectorInfo.selector item))
        (customRequiredStates Threshold options)),
        (SelectorInfo.states item), file, (SelectorInfo.line item), false.
      repeat split. }
  destruct Hshape as (required & presentStates & file & line & flag
                      & -> & -> & -> & ->).
  split; [|split].
  - intros s Hs. destruct flag; [contradiction|].
    now apply filter_In in Hs.
  - intros ->. reflexivity.
  - intros s Hs. rewrite statesRecord_get.
    pose proof (proj2 (includesState_In required s) Hs) as Hb. rewrite Hb.
    eexists. split; [reflexivity|]. cbn [present location]. split.
    + destruct (includesState presentStates s); split; congruence.
    + intros ->. rewrite filter_In.
      destruct (includesState presentStates s); simpl; intuition congruence.
Qed.

End AnalyzerProperties.

Section DynamicProjects.
Variable matchesPattern : string -> string -> bool.
Variable toLowerCase : string -> string.
Variable roundedPercentage : nat -> nat -> nat.
Variable Threshold : Type.
Variable atLeast : nat -> Threshold -> bool.

Lemma in_collected_member {Item : Type}
  (analyzeItem : string -> Item -> option StateAnalysis.t)
  (results : list (string * list Item)) (a : StateAnalysis.t) :
  In a (collected analyzeItem results) ->
  exists file items item,
    In (file, items) results /\ In item items /\
    analyzeItem file item = Some a.
Proof.
  unfold collected. intros Hin. apply in_flat_map in Hin.
  destruct Hin as ([file items] & Hfile & Hin). apply in_flat_map in Hin.
  destruct Hin as (item & Hitem & Hin). cbn [fst snd] in *.
  exists file, items, item. split; [exact Hfile|]. split; [exact Hitem|].
  destruct (analyzeItem file item); simpl in Hin;
    [destruct Hin as [->|[]]; reflexivity | contradiction].
Qed.

(** X19.  When every JSX element has unresolved expressions and there is
    no style sheet selector, nothing is required and nothing is reported
    missing: the coverage is 0 of 0 at 100 percent, and the run passes
    exactly when 100 reaches the threshold. *)
Theorem X19_all_unresolved_gives_full_coverage :
  forall (options : AnalyzeOptions Threshold),
    cssResults Threshold options = [] ->
    (forall file items element,
        In (file, items) (jsxResults Threshold options) ->
        In element items ->
        ElementInfo.hasUnresolvedExpressions element = true) ->
    let result :=
      analyze matchesPattern toLowerCase roundedPercentage Threshold atLeast
        options in
    coverage result = Coverage.mk 0 0 100 /\
    passed result = atLeast 100 (optThreshold Threshold options) /\
    unresolvedCount result = elements result /\
    forall a, In a (analyses result) -> StateAnalysis.missingStates a = [].
Proof.
  intros options Hcss Hall result. subst result.
  destruct (analyze_fields matchesPattern toLowerCase roundedPercentage
              Threshold atLeast options) as (Ha & He & Hu & Hc & Hp).
  cbv zeta in *. rewrite Hcss in *. cbn [collected flat_map] in *.
  rewrite app_nil_r in *.
  assert (Hflag : forall a,
             In a (collected (analyzeElement matchesPattern Threshold options)
                     (jsxResults Threshold options)) ->
             StateAnalysis.hasUnresolvedExpressions a = true /\
             StateAnalysis.missingStates a = []).
  { intros a Hin. apply in_collected_member in Hin.
    destruct Hin as (file & items & item & Hfile & Hitem & H).
    specialize (Hall file items item Hfile Hitem).
    unfold analyzeElement in H. destruct (_ && _); [discriminate|].
    injection H as <-. cbn. now rewrite Hall. }
  revert Ha He Hu Hc Hp Hflag.
  generalize (collected (analyzeElement matchesPattern Threshold options)
                (jsxResults Threshold options)) as all.
  intros all Ha He Hu Hc Hp Hflag.
  assert (Hnone : resolvedOnly all = []).
  { unfold resolvedOnly. clear - Hflag.
    induction all as [|a l IH]; [reflexivity|]. simpl.
    destruct (Hflag a (or_introl eq_refl)) as [-> _]. simpl.
    apply IH. intros b Hb. apply Hflag. now right. }
  assert (Hevery : filter StateAnalysis.hasUnresolvedExpressions all = all).
  { clear - Hflag. induction all as [|a l IH]; [reflexivity|]. simpl.
    destruct (Hflag a (or_introl eq_refl)) as [-> _]. f_equal.
    apply IH. intros b Hb. apply Hflag. now right. }
  rewrite Hnone in Hc, Hp. rewrite Hevery in Hu.
  split; [exact Hc|]. split; [exact Hp|]. split; [congruence|].
  rewrite Ha. intros a Hin. now apply Hflag.
Qed.

End DynamicProjects.

Lemma X17_witness_button_missing_focus :
  let result := sampleAnalyze (sampleAnalyzeOptions [sampleButton; sampleDynamicLink]) in
  let button :=
    StateAnalysis.mk "hover:bg-blue-500" "/project/component.tsx" 3 "button"
      [("hover", mkStatus true (Some (mkLocation "/project/component.tsx" 3)));
       ("focus", mkStatus false None)]
      ["hover"; "focus"] ["focus"] false [] in
  In button (analyses result) /\
  coverage result = Coverage.mk 2 1 50 /\
  unresolvedCount result = 1 /\
  (forall s, In s (StateAnalysis.missingStates button) ->
             In s (StateAnalysis.requiredStates button)).
Proof.
  intros result button.
  assert (Hin : In button (analyses result)) by (left; reflexivity).
  split; [exact Hin|]. split; [reflexivity|]. split; [reflexivity|].
  exact (proj1 (X17_missing_states_are_required_and_absent
                  (fun _ _ => false) (fun s => s)
                  (fun present total => (200 * present + total) / (2 * total))
                  nat (fun percentage threshold => Nat.leb threshold percentage)
                  (sampleAnalyzeOptions [sampleButton; sampleDynamicLink])
                  button Hin)).
Defined.

Lemma X19_witness_only_dynamic_elements :
  let result := sampleAnalyze (sampleAnalyzeOptions [sampleDynamicLink]) in
  coverage result = Coverage.mk 0 0 100 /\
  passed result = true /\
  unresolvedCount result = elements result /\
  forall a, In a (analyses result) -> StateAnalysis.missingStates a = [].
Proof.
  intros result.
  refine (X19_all_unresolved_gives_full_coverage
            (fun _ _ => false) (fun s => s)
            (fun present total => (200 * present + total) / (2 * total))
            nat (fun percentage threshold => Nat.leb threshold percentage)
            (sampleAnalyzeOptions [sampleDynamicLink]) eq_refl _).
  intros file items element Hfile Hitem.
  destruct Hfile as [Hfile|[]]. injection Hfile as <- <-.
  destruct Hitem as [<-|[]]. reflexivity.
Defined.

(** * The class name handed to the analyzer *)

(** X20.  The class-name extraction of the JSX parser flags unresolved
    expressions exactly when it lists at least one of them, whatever the
    attribute value and the bindings; a string attribute is taken as it
    is and is never flagged, and an attribute value that is neither a
    string nor an expression gives the empty class name, not flagged. *)
Theorem X20_class_name_flag_matches_fragments :
  forall (attrValue : AttributeValue) (symbols : SymbolTable),
    let extraction := extractClassNameFromValue attrValue symbols in
    (hasUnresolvedExpressions extraction = true
     <-> unresolvedExpressions extraction <> []) /\
    (forall value, attrValue = AttrStringLiteral value ->
                   extraction = mkExtraction value false []) /\
    (attrValue = AttrOther -> extraction = mkExtraction "" false []).
Proof.
  intros attrValue symbols extraction. subst extraction.
  split; [|split].
  - destruct attrValue as [value|expr|]; cbn.
    + split; [discriminate | congruence].
    + pose proof (resolveExpression_coherent symbols expr) as [H1 H2].
      destruct (isFullyResolved (resolveExpression expr symbols)); cbn.
      * split; [discriminate|]. intros H. now apply H2 in H.
      * split; [intros _; now apply H1 | reflexivity].
    + split; [discriminate | congruence].
  - intros value ->. reflexivity.
  - intros ->. reflexivity.
Qed.

Example selector_types_are_inferred_in_order :
  inferElementType (fun s => s) ".btn-primary" = "button" /\
  inferElementType (fun s => s) ".nav-link button" = "button" /\
  inferElementType (fun s => s) ".nav-link" = "a" /\
  inferElementType (fun s => s) ".card" = "unknown" /\
  getRequiredStates "input" None = ["focus"; "disabled"] /\
  getRequiredStates "input" (Some [("input", Some ["focus"])]) = ["focus"] /\
  getRequiredStates ".card" None = ["hover"; "focus"].
Proof. repeat split; reflexivity. Qed.
